(** * Two-replica mindmap reconciliation (Cloudflare worker [/api/sync])

    A shallow embedding of [mergeMindmapData], [mergeNodes] and the
    [handleSync] endpoint of the mindmap worker, together with the
    properties of the reconciliation that the design document states,
    and of the rest of the worker: the vocabulary state endpoint
    [handleVocabState] and the router [fetch]. *)

From stdpp Require Import base option list gmap strings fin_maps sets.
From Stdlib Require Import ZArith Ascii.

#[local] Set Warnings "-clear-no-such-hyp".
Local Open Scope string_scope.
Local Open Scope list_scope.

(** ** JavaScript values and effects *)

(** Errors raised by the runtime ([JSON.parse], a property read on [null],
    a failing body decode).  [String(error)] renders name and message. *)
Inductive JsError : Type :=
| SyntaxError (message : string)
| TypeError (message : string).

Definition String_of_error (e : JsError) : string :=
  match e with
  | SyntaxError m => "SyntaxError: " +:+ m
  | TypeError m => "TypeError: " +:+ m
  end.

(** A computation that either throws or returns. *)
Inductive Exc (A : Type) : Type :=
| Throw (e : JsError)
| Ok (a : A).
Arguments Throw {A} e.
Arguments Ok {A} a.

Global Instance Exc_ret : MRet Exc := λ A a, Ok a.
Global Instance Exc_bind : MBind Exc := λ A B k c,
  match c with
  | Throw e => Throw e
  | Ok a => k a
  end.

(** [try { body } catch (e) { handler }] *)
Definition try_catch {A} (body : Exc A) (handler : JsError → Exc A) : Exc A :=
  match body with
  | Throw e => handler e
  | Ok a => Ok a
  end.

(** The value of an [id] property: a string, or [undefined] when the
    property is missing.  [deletedIds] is declared [Set<string>], node ids
    are compared with [===] / SameValueZero, which on these values is
    plain equality. *)
Inductive JsKey : Type :=
| KUndefined
| KString (s : string).

Global Instance JsKey_eq_dec : EqDecision JsKey.
Proof. solve_decision. Defined.

Definition JsKey_to_option (k : JsKey) : option string :=
  match k with KUndefined => None | KString s => Some s end.
Definition JsKey_of_option (o : option string) : JsKey :=
  match o with None => KUndefined | Some s => KString s end.

Global Instance JsKey_countable : Countable JsKey :=
  inj_countable' JsKey_to_option JsKey_of_option
    (λ k, match k with KUndefined => eq_refl | KString _ => eq_refl end).

(** What [JSON.parse(record)] evaluates to, as far as the following read
    of [parsed.id] can observe: [null] (the read throws a TypeError), or
    any other value, with the value of its [id] property ([undefined] for
    numbers, strings, booleans, arrays and objects without that key). *)
Inductive Json : Type :=
| JNull
| JValue (idProp : JsKey).

(** [parsed.id] *)
Definition get_id (parsed : Json) : Exc JsKey :=
  match parsed with
  | JNull => Throw (TypeError "Cannot read properties of null (reading 'id')")
  | JValue k => Ok k
  end.

(** The built-ins the worker calls.  [Date_getTime ts] is
    [new Date(ts).getTime()]: milliseconds since the epoch, [None] for NaN
    (an unparsable date). *)
Class Runtime : Type := {
  JSON_parse : string → Exc Json;
  Date_getTime : string → option Z;
  (** the engine's text for [error.stack] *)
  error_stack : JsError → string;
}.

(** [a > b] on time values: false as soon as one side is NaN. *)
Definition js_gt (a b : option Z) : bool :=
  match a, b with
  | Some x, Some y => bool_decide (y < x)%Z
  | _, _ => false
  end.

(** A JavaScript [Set] iterates in insertion order; it is kept as the list
    of its members in that order. *)
Definition Set_add {A} `{EqDecision A} (s : list A) (x : A) : list A :=
  if decide (x ∈ s) then s else s ++ [x].

(** [new Set(iterable)] *)
Definition Set_from {A} `{EqDecision A} (l : list A) : list A :=
  foldl Set_add [] l.

(** ** Data model *)

#[local] Unset Elimination Schemes.
(** A tree vertex: its [id], its other own properties (copied wholesale by
    the spread [{...newerNode}]), and the optional [children] array. *)
Inductive Node : Type :=
  mkNode { id : JsKey;
           fields : list (string * string);
           children : option (list Node) }.
#[local] Set Elimination Schemes.

(** The view offset is copied, never computed on. *)
Record ViewOffset : Type := mkViewOffset { x : Z; y : Z }.

(** [interface MindmapData]; [tree] may be [null], [deletedNodes] may be
    missing in older schema variants. *)
Record MindmapData : Type := mkMindmapData {
  tree : option Node;
  currentCenterId : string;
  viewOffset : ViewOffset;
  deletedNodes : option (list string);
  timestamp : string;
}.

(** [node.children || []] *)
Definition kids (n : Node) : list Node := default [] (children n).

(** ** The tree merger *)

(** [mergedChildren.findIndex(c => c.id === k)] *)
Definition findIndex (k : JsKey) (l : list Node) : option nat :=
  fst <$> list_find (λ c, id c = k) l.

(** [newerChildren.forEach(child => newerChildMap.set(child.id, child))] *)
Definition childMap (newerChildren : list Node) : gmap JsKey Node :=
  foldl (λ m child, <[id child := child]> m) ∅ newerChildren.

(** The body of [mergeNodes] once both arguments are objects.  The
    recursion descends through the children of [olderNode].  An entry of
    [mergedChildren] is replaced only by a result that is an object
    ([if (mergedChild)]), so the sequence never holds [null] and the final
    [filter(c => c !== null)] returns it as it is. *)
Fixpoint mergeNodes_obj (newerNode olderNode : Node) (deletedIds : gset JsKey)
    {struct olderNode} : option Node :=
  if decide (id newerNode ∈ deletedIds) then None
  else if decide (id olderNode ∈ deletedIds) then None
  else
    let newerChildren := kids newerNode in
    let newerChildMap := childMap newerChildren in
    let step (mergedChildren : list Node) (oldChild : Node) : list Node :=
      if decide (id oldChild ∈ deletedIds) then mergedChildren
      else match newerChildMap !! id oldChild with
           | None => mergedChildren ++ [oldChild]
           | Some newerChild =>
               match mergeNodes_obj newerChild oldChild deletedIds with
               | Some mergedChild =>
                   match findIndex (id oldChild) mergedChildren with
                   | Some index => <[index := mergedChild]> mergedChildren
                   | None => mergedChildren
                   end
               | None => mergedChildren
               end
           end in
    let mergedChildren :=
      match children olderNode with
      | Some olderChildren => foldl step newerChildren olderChildren
      | None => newerChildren
      end in
    Some (mkNode (id newerNode) (fields newerNode) (Some mergedChildren)).

(** One turn of [olderChildren.forEach(...)], as a function of the
    accumulated [mergedChildren]. *)
Definition merge_step (deletedIds : gset JsKey) (newerChildren : list Node)
    (mergedChildren : list Node) (oldChild : Node) : list Node :=
  if decide (id oldChild ∈ deletedIds) then mergedChildren
  else match childMap newerChildren !! id oldChild with
       | None => mergedChildren ++ [oldChild]
       | Some newerChild =>
           match mergeNodes_obj newerChild oldChild deletedIds with
           | Some mergedChild =>
               match findIndex (id oldChild) mergedChildren with
               | Some index => <[index := mergedChild]> mergedChildren
               | None => mergedChildren
               end
           | None => mergedChildren
           end
       end.

(** [mergeNodes(newerNode, olderNode, deletedIds)]; [None] is [null]. *)
Definition mergeNodes (newerNode olderNode : option Node)
    (deletedIds : gset JsKey) : option Node :=
  match newerNode with
  | None => olderNode
  | Some n =>
      match olderNode with
      | None => Some n
      | Some o => mergeNodes_obj n o deletedIds
      end
  end.

(** ** The reconciler *)

(** [for (let x of xs) { s = body(s, x) }] where the body may throw. *)
Fixpoint for_of {A S} (xs : list A) (body : S → A → Exc S) (s : S) : Exc S :=
  match xs with
  | [] => Ok s
  | x :: xs => s' ← body s x; for_of xs body s'
  end.

Section Reconciler.
Context `{Runtime}.

(** [JSON.parse(record).id] *)
Definition record_id (record : string) : Exc JsKey :=
  parsed ← JSON_parse record; get_id parsed.

(** One turn of the loop over the deletion records: parse, read [id],
    add it; any exception is swallowed and the set is left as it was. *)
Definition add_record_id (deletedIds : gset JsKey) (record : string)
    : Exc (gset JsKey) :=
  try_catch
    (parsed ← JSON_parse record;
     k ← get_id parsed;
     mret ({[ k ]} ∪ deletedIds))
    (λ _, mret deletedIds).

(** [new Set([...cloudDeletedNodes, ...localDeletedNodes])] *)
Definition allDeletedNodes (cloudData localData : MindmapData) : list string :=
  let cloudDeletedNodes := Set_from (default [] (deletedNodes cloudData)) in
  let localDeletedNodes := Set_from (default [] (deletedNodes localData)) in
  Set_from (cloudDeletedNodes ++ localDeletedNodes).

Definition cloudTime (cloudData : MindmapData) : option Z :=
  Date_getTime (timestamp cloudData).
Definition localTime (localData : MindmapData) : option Z :=
  Date_getTime (timestamp localData).

Definition newerData (cloudData localData : MindmapData) : MindmapData :=
  if js_gt (localTime localData) (cloudTime cloudData)
  then localData else cloudData.
Definition olderData (cloudData localData : MindmapData) : MindmapData :=
  if js_gt (localTime localData) (cloudTime cloudData)
  then cloudData else localData.

(** [mergeMindmapData(cloudData, localData)]; [now] is the value of
    [new Date().toISOString()] read when the result is built. *)
Definition mergeMindmapData (now : string) (cloudData localData : MindmapData)
    : Exc MindmapData :=
  deletedIds ← for_of (allDeletedNodes cloudData localData) add_record_id ∅;
  let mergedTree :=
    mergeNodes (tree (newerData cloudData localData))
               (tree (olderData cloudData localData)) deletedIds in
  mret {| tree := mergedTree;
          currentCenterId := currentCenterId (newerData cloudData localData);
          viewOffset := viewOffset (newerData cloudData localData);
          deletedNodes := Some (allDeletedNodes cloudData localData);
          timestamp := now |}.

(** The value of the constant [deletedIds] inside [mergeMindmapData]. *)
Definition deletedIds_of (cloudData localData : MindmapData) : gset JsKey :=
  match for_of (allDeletedNodes cloudData localData) add_record_id ∅ with
  | Ok d => d
  | Throw _ => ∅
  end.
End Reconciler.

(** ** The sync endpoint *)

(** What the handler can touch: the KV namespace (kept at the level of the
    decoded JSON values: [put(key, JSON.stringify(v))] followed by
    [get(key, 'json')] gives [v] back) and the wall clock. *)
Record World : Type := mkWorld {
  MINDMAP_KV : gmap string MindmapData;
  clock : string;
}.

(** An asynchronous step of the handler: it may throw, and it may change
    the world. *)
Definition Task (A : Type) : Type := World → Exc A * World.

Global Instance Task_ret : MRet Task := λ A a w, (Ok a, w).
Global Instance Task_bind : MBind Task := λ A B k c w,
  match c w with
  | (Throw e, w') => (Throw e, w')
  | (Ok a, w') => k a w'
  end.

Definition task_of_exc {A} (c : Exc A) : Task A := λ w, (c, w).

Definition task_try_catch {A} (body : Task A) (handler : JsError → Task A)
    : Task A := λ w,
  match body w with
  | (Throw e, w') => handler e w'
  | (Ok a, w') => (Ok a, w')
  end.

(** [env.MINDMAP_KV.get(key, 'json')] *)
Definition KV_get (key : string) : Task (option MindmapData) :=
  λ w, (Ok (MINDMAP_KV w !! key), w).

(** [env.MINDMAP_KV.put(key, JSON.stringify(value))] *)
Definition KV_put (key : string) (value : MindmapData) : Task unit :=
  λ w, (Ok (), {| MINDMAP_KV := <[key := value]> (MINDMAP_KV w);
                  clock := clock w |}).

(** [new Date().toISOString()] *)
Definition Date_now : Task string := λ w, (Ok (clock w), w).

(** The decoded request body, as far as [body.localData] observes it. *)
Inductive RequestBody : Type :=
| BodyNull
| BodyValue (localData : option MindmapData).

Definition get_localData (body : RequestBody) : Exc (option MindmapData) :=
  match body with
  | BodyNull =>
      Throw (TypeError "Cannot read properties of null (reading 'localData')")
  | BodyValue l => Ok l
  end.

Record Request : Type := mkRequest {
  method : string;
  (** the outcome of [await req.json()] *)
  json : Exc RequestBody;
}.

(** The JSON object sent back; a field that is not written is [None]. *)
Record Reply : Type := mkReply {
  success : bool;
  data : option (option MindmapData);
  error : option string;
  stack : option string;
}.

Record Response : Type := mkResponse {
  status : Z;
  headers : list (string * string);
  body : Reply;
}.

Section Endpoint.
Context `{Runtime}.

Definition handleSync (req : Request) (corsHeaders : list (string * string))
    : Task Response :=
  let headers := corsHeaders ++ [("Content-Type", "application/json")] in
  task_try_catch
    (if decide (method req = "GET") then
       cloudData ← KV_get "mindmap_data";
       mret {| status := 200; headers := headers;
               body := {| success := true; data := Some cloudData;
                          error := None; stack := None |} |}
     else if decide (method req = "POST") then
       body ← task_of_exc (json req);
       localData ← task_of_exc (get_localData body);
       cloudData ← KV_get "mindmap_data";
       let store (mergedData : MindmapData) : Task Response :=
         _ ← KV_put "mindmap_data" mergedData;
         mret {| status := 200; headers := headers;
                 body := {| success := true; data := Some (Some mergedData);
                            error := None; stack := None |} |} in
       match cloudData, localData with
       | None, Some localData => store localData
       | Some cloudData, None => store cloudData
       | Some cloudData, Some localData =>
           now ← Date_now;
           mergedData ← task_of_exc (mergeMindmapData now cloudData localData);
           store mergedData
       | None, None =>
           mret {| status := 400; headers := headers;
                   body := {| success := false; data := None;
                              error := Some "No data provided";
                              stack := None |} |}
       end
     else
       mret {| status := 405; headers := headers;
               body := {| success := false; data := None;
                          error := Some "Method not allowed";
                          stack := None |} |})
    (λ error,
       mret {| status := 500; headers := headers;
               body := {| success := false; data := None;
                          error := Some (String_of_error error);
                          stack := Some (error_stack error) |} |}).
End Endpoint.

(** ** The vocabulary state endpoint *)

(** Everything the worker can touch: the world of the sync endpoint and
    the KV namespace [VOCAB], which holds texts. *)
Record Site : Type := mkSite {
  sync_world : World;
  VOCAB : gmap string string;
}.

(** A step of the worker over the whole site. *)
Definition Job (A : Type) : Type := Site → Exc A * Site.

Global Instance Job_ret : MRet Job := λ A a s, (Ok a, s).
Global Instance Job_bind : MBind Job := λ A B k c s,
  match c s with
  | (Throw e, s') => (Throw e, s')
  | (Ok a, s') => k a s'
  end.

Definition job_of_exc {A} (c : Exc A) : Job A := λ s, (c, s).

Definition job_try_catch {A} (body : Job A) (handler : JsError → Job A)
    : Job A := λ s,
  match body s with
  | (Throw e, s') => handler e s'
  | (Ok a, s') => (Ok a, s')
  end.

(** A step of the sync endpoint, run inside the site. *)
Definition job_of_task {A} (t : Task A) : Job A := λ s,
  match t (sync_world s) with
  | (r, w') => (r, {| sync_world := w'; VOCAB := VOCAB s |})
  end.

(** [env.VOCAB.get(key)] *)
Definition VOCAB_get (key : string) : Job (option string) :=
  λ s, (Ok (VOCAB s !! key), s).

(** [env.VOCAB.put(key, text)] *)
Definition VOCAB_put (key text : string) : Job unit :=
  λ s, (Ok (), {| sync_world := sync_world s;
                  VOCAB := <[key := text]> (VOCAB s) |}).

(** [env.VOCAB.delete(key)] *)
Definition VOCAB_delete (key : string) : Job unit :=
  λ s, (Ok (), {| sync_world := sync_world s;
                  VOCAB := delete key (VOCAB s) |}).

(** [todayStr(d)] for [d.toISOString() = iso]: the first ten characters. *)
Definition todayStr (iso : string) : string := String.substring 0 10 iso.

(** [todayStr()] with the default argument [new Date()]. *)
Definition todayStr_now : Job string :=
  λ s, (Ok (todayStr (clock (sync_world s))), s).

(** The decoded body of a PUT, as far as the handler observes it:
    [null] ([typeof] is ['object'] and reading [.items] throws), a
    number, string or boolean ([typeof] is not ['object']), or an object
    or array, with whether its [items] property is an array.  [text] is
    its [JSON.stringify] text. *)
Inductive StateBody : Type :=
| StateNull
| StatePrimitive (text : string)
| StateObject (items_is_array : bool) (text : string).

Record StateRequest : Type := mkStateRequest {
  state_method : string;
  (** the outcome of [await req.json<any>()] *)
  state_json : Exc StateBody;
}.

(** [typeof body !== 'object'] *)
Definition typeof_is_not_object (body : StateBody) : bool :=
  match body with
  | StatePrimitive _ => true
  | StateNull | StateObject _ _ => false
  end.

(** [Array.isArray(body.items)] *)
Definition items_isArray (body : StateBody) : Exc bool :=
  match body with
  | StateNull =>
      Throw (TypeError "Cannot read properties of null (reading 'items')")
  | StatePrimitive _ => Ok false
  | StateObject b _ => Ok b
  end.

(** [JSON.stringify(body)] *)
Definition stringify_body (body : StateBody) : string :=
  match body with
  | StateNull => "null"
  | StatePrimitive text | StateObject _ text => text
  end.

(** The state object served when nothing is stored. *)
Record VocabState : Type := mkVocabState {
  items : list string;
  counter : Z;
  debt : Z;
  lastDecay : string;
  createdAt : string;
}.

(** The body of an answer of the state endpoint: a stored text sent as it
    is, the text of a fresh state object, the text of an error object, or
    no body. *)
Inductive StateReplyBody : Type :=
| StoredText (raw : string)
| FreshState (def : VocabState)
| StateError (error : string)
| NoBody.

Record StateResponse : Type := mkStateResponse {
  state_status : Z;
  state_headers : list (string * string);
  state_body : StateReplyBody;
}.

Definition handleVocabState (req : StateRequest)
    (corsHeaders : list (string * string)) : Job StateResponse :=
  let headers :=
    corsHeaders ++ [("content-type", "application/json; charset=utf-8")] in
  job_try_catch
    (if decide (state_method req = "GET") then
       raw ← VOCAB_get "state";
       let fresh : Job StateResponse :=
         now ← todayStr_now;
         let def := {| items := []; counter := 0; debt := 0;
                       lastDecay := now; createdAt := now |} in
         mret {| state_status := 200; state_headers := headers;
                 state_body := FreshState def |} in
       (* [!raw]: [null] and the empty text are falsy *)
       match raw with
       | None => fresh
       | Some text =>
           if decide (text = "") then fresh
           else mret {| state_status := 200; state_headers := headers;
                        state_body := StoredText text |}
       end
     else if decide (state_method req = "PUT") then
       body ← job_of_exc (state_json req);
       (* [typeof body !== 'object' || !Array.isArray(body.items)] *)
       invalid ← job_of_exc
         (if typeof_is_not_object body then Ok true
          else (is_array ← items_isArray body; mret (negb is_array)));
       if (invalid : bool) then
         mret {| state_status := 400; state_headers := headers;
                 state_body := StateError "Invalid state shape" |}
       else
         _ ← VOCAB_put "state" (stringify_body body);
         mret {| state_status := 204; state_headers := [];
                 state_body := NoBody |}
     else if decide (state_method req = "DELETE") then
       _ ← VOCAB_delete "state";
       mret {| state_status := 204; state_headers := [];
               state_body := NoBody |}
     else
       mret {| state_status := 405; state_headers := headers;
               state_body := StateError "Method not allowed" |})
    (λ e,
       mret {| state_status := 500; state_headers := headers;
               state_body := StateError (String_of_error e) |}).

(** The state object served when nothing is stored, at clock reading
    [iso]. *)
Definition fresh_state (iso : string) : VocabState :=
  {| items := []; counter := 0; debt := 0;
     lastDecay := todayStr iso; createdAt := todayStr iso |}.

(** ** The router *)

(** The answer of the static asset fetcher. *)
Record AssetResponse : Type := mkAssetResponse {
  asset_status : Z;
  asset_content : string;
}.

(** A request as the router reads it: the origin and the path of its URL,
    its method, and its body as each API endpoint would decode it. *)
Record FetchRequest : Type := mkFetchRequest {
  url_origin : string;
  url_pathname : string;
  fetch_method : string;
  body_for_sync : Exc RequestBody;
  body_for_state : Exc StateBody;
}.

Inductive FetchResponse : Type :=
| Preflight (headers : list (string * string))
| FromState (r : StateResponse)
| FromSync (r : Response)
| Redirect (location : string) (code : Z)
| FromAssets (r : AssetResponse).

Definition corsHeaders : list (string * string) :=
  [("Access-Control-Allow-Origin", "*");
   ("Access-Control-Allow-Methods", "GET, POST, PUT, DELETE, OPTIONS");
   ("Access-Control-Allow-Headers", "Content-Type")].

(** [[a-zA-Z0-9]] *)
Definition is_alnum (c : ascii) : bool :=
  let n := nat_of_ascii c in
  (Nat.leb 48 n && Nat.leb n 57) || (Nat.leb 65 n && Nat.leb n 90)
  || (Nat.leb 97 n && Nat.leb n 122).

(** The length of the longest prefix of alphanumeric characters. *)
Fixpoint alnum_run (cs : list ascii) : nat :=
  match cs with
  | c :: cs => if is_alnum c then S (alnum_run cs) else 0
  | [] => 0
  end.

(** [/\.[a-zA-Z0-9]+$/.test(pathname)]: the path ends with a dot followed
    by one or more alphanumeric characters.  The characters are read from
    the end. *)
Definition hasExtension (pathname : string) : bool :=
  let back := reverse (String.list_ascii_of_string pathname) in
  let n := alnum_run back in
  bool_decide (0 < n) && bool_decide (back !! n = Some "."%char).

Section Router.
Context `{Runtime}.

(** The [fetch] handler, given the asset fetcher [env.ASSETS] as a
    function of the path it is asked for (an external service: what else
    of the request it looks at, and its failures, are not modelled). *)
Definition fetch (req : FetchRequest) (ASSETS : string → AssetResponse)
    : Job FetchResponse :=
  if decide (fetch_method req = "OPTIONS") then
    mret (Preflight corsHeaders)
  else if decide (url_pathname req = "/api/state") then
    r ← handleVocabState
           {| state_method := fetch_method req;
              state_json := body_for_state req |} corsHeaders;
    mret (FromState r)
  else if decide (url_pathname req = "/api/sync") then
    r ← job_of_task
           (handleSync {| method := fetch_method req;
                          json := body_for_sync req |} corsHeaders);
    mret (FromSync r)
  else if decide (url_pathname req = "/" ∨ url_pathname req = "") then
    mret (Redirect (url_origin req +:+ "/index.html") 301)
  else if decide (url_pathname req = "/quiz" ∨ url_pathname req = "/quiz/") then
    mret (FromAssets (ASSETS "/quiz.html"))
  else if decide (url_pathname req = "/vocab" ∨ url_pathname req = "/vocab/") then
    mret (FromAssets (ASSETS "/vocab.html"))
  else
    let res := ASSETS (url_pathname req) in
    if decide (asset_status res ≠ 404%Z) then mret (FromAssets res)
    else if negb (hasExtension (url_pathname req)) then
      mret (FromAssets (ASSETS "/index.html"))
    else mret (FromAssets res).
End Router.

(** ** Vocabulary for stating the properties *)

(** Induction over a tree, with the hypothesis available for every child. *)
Fixpoint Node_nested_ind (P : Node → Prop)
    (Hleaf : ∀ k f, P (mkNode k f None))
    (Hnode : ∀ k f l, Forall P l → P (mkNode k f (Some l)))
    (n : Node) {struct n} : P n :=
  match n with
  | mkNode k f None => Hleaf k f
  | mkNode k f (Some l) =>
      Hnode k f l
        ((fix go (l : list Node) : Forall P l :=
            match l with
            | [] => @List.Forall_nil Node P
            | c :: l =>
                @List.Forall_cons Node P c l
                  (Node_nested_ind P Hleaf Hnode c) (go l)
            end) l)
  end.

(** The ids of a child sequence, in order. *)
Definition child_ids (l : list Node) : list JsKey := id <$> l.

(** The first child carrying id [k]. *)
Definition child_by_id (k : JsKey) (l : list Node) : option Node :=
  snd <$> list_find (λ c, id c = k) l.

(** The node reached from [n] by following a path of child ids. *)
Fixpoint node_at (p : list JsKey) (n : Node) : option Node :=
  match p with
  | [] => Some n
  | k :: p => c ← child_by_id k (kids n); node_at p c
  end.

(** All ids occurring in a tree, parent first. *)
Fixpoint tree_ids (n : Node) : list JsKey :=
  id n :: match children n with
          | None => []
          | Some l => concat (map tree_ids l)
          end.

Definition ids_of_tree (t : option Node) : list JsKey :=
  match t with None => [] | Some n => tree_ids n end.

(** No two children of one parent share an id, anywhere in the tree.
    The data-model invariant (all ids of a tree are distinct) implies it. *)
Fixpoint distinct_siblings (n : Node) : bool :=
  match children n with
  | None => true
  | Some l => bool_decide (NoDup (child_ids l)) && forallb distinct_siblings l
  end.

(** Every node of the tree carries a [children] array. *)
Fixpoint has_children_arrays (n : Node) : bool :=
  match children n with
  | None => false
  | Some l => forallb has_children_arrays l
  end.

(** What becomes of a child of the newer node: it stays as it is when it
    is tombstoned or has no counterpart among the older children, and is
    merged with its counterpart otherwise. *)
Definition merged_child (deletedIds : gset JsKey) (olderChildren : list Node)
    (c : Node) : Node :=
  if decide (id c ∈ deletedIds) then c
  else match child_by_id (id c) olderChildren with
       | Some o => default c (mergeNodes_obj c o deletedIds)
       | None => c
       end.

(** The child sequence of a merged node, written without the loop. *)
Definition merged_children (deletedIds : gset JsKey)
    (olderChildren newerChildren : list Node) : list Node :=
  (merged_child deletedIds olderChildren <$> newerChildren) ++
  filter (λ o, (id o ∉ deletedIds) ∧ (id o ∉ child_ids newerChildren))
       olderChildren.

(** [m] stands in the merged tree for the node [n] of the newer tree:
    it is [n] itself, or [n] merged with some older node. *)
Definition merge_image (deletedIds : gset JsKey) (n m : Node) : Prop :=
  m = n ∨ ∃ o, distinct_siblings o = true
               ∧ mergeNodes_obj n o deletedIds = Some m.

(** The merged snapshot [m] takes its scalars from the snapshot [winner]:
    the focused-node pointer, the view offset and, when both trees are
    present, have distinct sibling ids and live roots, the id and the
    fields of every node of [winner]'s tree, found at the same path. *)
Definition scalars_from (deletedIds : gset JsKey)
    (m winner other : MindmapData) : Prop :=
  currentCenterId m = currentCenterId winner
  ∧ viewOffset m = viewOffset winner
  ∧ ∀ tn to,
      tree winner = Some tn → tree other = Some to →
      distinct_siblings tn = true → distinct_siblings to = true →
      id tn ∉ deletedIds → id to ∉ deletedIds →
      ∃ tm, tree m = Some tm
            ∧ ∀ p x, node_at p tn = Some x →
                ∃ x', node_at p tm = Some x'
                      ∧ id x' = id x ∧ fields x' = fields x.

(** ** A concrete runtime for the worked scenarios

    The properties below hold for every [Runtime].  The scenarios are run
    with decoders for the two text formats the clients produce: a
    deletion record [{"id":"<text>"}] and an ISO-8601 UTC instant as
    written by [toISOString].  On the strings they accept they give what
    [JSON.parse] and [Date] give. *)
Module Scenario.

Definition dquote : string := String (ascii_of_nat 34) EmptyString.

(** [JSON.stringify({id: k})] for an id without quotes or escapes. *)
Definition stringify_id (k : string) : string :=
  "{" +:+ dquote +:+ "id" +:+ dquote +:+ ":" +:+ dquote +:+ k +:+ dquote +:+ "}".

Definition plain_char (c : ascii) : bool :=
  let n := nat_of_ascii c in
  bool_decide (32 ≤ n ∧ n ≠ 34 ∧ n ≠ 92 ∧ n < 127)%nat.

Definition JSON_parse_record (record : string) : Exc Json :=
  if decide (record = "null") then Ok JNull
  else if decide (record = "{}") then Ok (JValue KUndefined)
  else
    let k := String.substring 7 (String.length record - 9) record in
    if forallb plain_char (String.list_ascii_of_string k)
       && bool_decide (record = stringify_id k)
    then Ok (JValue (KString k))
    else Throw (SyntaxError "Unexpected token").

Definition digit (c : ascii) : option Z :=
  let n := Z.of_nat (nat_of_ascii c) in
  if decide (48 ≤ n ≤ 57)%Z then Some (n - 48)%Z else None.

Fixpoint number (cs : list ascii) (acc : Z) : option Z :=
  match cs with
  | [] => Some acc
  | c :: cs => d ← digit c; number cs (10 * acc + d)%Z
  end.

(** Days from 1970-01-01 to the given day of the proleptic Gregorian
    calendar. *)
Definition days_from_civil (y m d : Z) : Z :=
  let y' := if bool_decide (m ≤ 2)%Z then (y - 1)%Z else y in
  let era := (y' / 400)%Z in
  let yoe := (y' - era * 400)%Z in
  let mp := if bool_decide (2 < m)%Z then (m - 3)%Z else (m + 9)%Z in
  let doy := ((153 * mp + 2) / 5 + d - 1)%Z in
  let doe := (yoe * 365 + yoe / 4 - yoe / 100 + doy)%Z in
  (era * 146097 + doe - 719468)%Z.

Definition days_in_month (y m : Z) : Z :=
  if bool_decide (m = 2)%Z then
    if bool_decide ((y mod 4 = 0 ∧ y mod 100 ≠ 0) ∨ y mod 400 = 0)%Z
    then 29%Z else 28%Z
  else if bool_decide (m = 4 ∨ m = 6 ∨ m = 9 ∨ m = 11)%Z then 30%Z
  else 31%Z.

(** [YYYY-MM-DDTHH:mm:ss.sssZ] to milliseconds since the epoch. *)
Definition Date_getTime_iso (ts : string) : option Z :=
  let cs := String.list_ascii_of_string ts in
  let sep (i : nat) (c : string) := bool_decide (String.get i ts = String.get 0 c) in
  if bool_decide (length cs = 24%nat)
     && sep 4%nat "-" && sep 7%nat "-" && sep 10%nat "T"
     && sep 13%nat ":" && sep 16%nat ":" && sep 19%nat "." && sep 23%nat "Z"
  then
    yr ← number (take 4 cs) 0;
    mo ← number (take 2 (drop 5 cs)) 0;
    dy ← number (take 2 (drop 8 cs)) 0;
    hh ← number (take 2 (drop 11 cs)) 0;
    mi ← number (take 2 (drop 14 cs)) 0;
    ss ← number (take 2 (drop 17 cs)) 0;
    ms ← number (take 3 (drop 20 cs)) 0;
    if bool_decide (1 ≤ mo ≤ 12 ∧ 1 ≤ dy ≤ days_in_month yr mo
                    ∧ hh ≤ 23 ∧ mi ≤ 59 ∧ ss ≤ 59)%Z
    then Some ((((days_from_civil yr mo dy * 24 + hh) * 60 + mi) * 60 + ss)
                * 1000 + ms)%Z
    else None
  else None.

#[export] Instance runtime : Runtime := {|
  JSON_parse := JSON_parse_record;
  Date_getTime := Date_getTime_iso;
  error_stack := String_of_error;
|}.

Definition T1 : string := "2024-01-01T00:00:00.000Z".
Definition T2 : string := "2024-01-02T08:30:00.000Z".
Definition T3 : string := "2024-01-03T12:00:00.000Z".

Definition leaf (k label : string) : Node :=
  mkNode (KString k) [("text", label)] (Some []).
Definition branch (k label : string) (cs : list Node) : Node :=
  mkNode (KString k) [("text", label)] (Some cs).

Definition snapshot (t : Node) (focus : string) (records : list string)
    (ts : string) : MindmapData :=
  {| tree := Some t; currentCenterId := focus;
     viewOffset := mkViewOffset 0 0;
     deletedNodes := Some records; timestamp := ts |}.

(** A replica that deleted node K: K is gone from its tree and named by
    a deletion record. *)
Definition deleter (ts : string) : MindmapData :=
  snapshot (branch "root" "Root" [leaf "A" "a"]) "root" [stringify_id "K"] ts.

(** A replica that still has K, with an edited label, and no record. *)
Definition editor (ts : string) : MindmapData :=
  snapshot (branch "root" "Root" [leaf "A" "a"; leaf "K" "edited"]) "K" [] ts.

(** Two replicas with the same timestamp and different scalars. *)
Definition cloud_tie : MindmapData :=
  {| tree := Some (branch "root" "cloud title" []);
     currentCenterId := "cloud focus";
     viewOffset := mkViewOffset 10 20;
     deletedNodes := Some []; timestamp := T1 |}.
Definition local_tie : MindmapData :=
  {| tree := Some (branch "root" "local title" []);
     currentCenterId := "local focus";
     viewOffset := mkViewOffset (-5) 7;
     deletedNodes := Some []; timestamp := T1 |}.

(** A snapshot whose deletion records name its own root. *)
Definition tombstoned_root : MindmapData :=
  snapshot (leaf "root" "Root") "root" [stringify_id "root"] T1.

(** A root without a [children] property. *)
Definition bare_root : MindmapData :=
  snapshot (mkNode (KString "root") [("text", "Root")] None) "root" [] T1.

(** Both replicas add a child under the root, and a record names the
    root. *)
Definition cloud_adds_X : MindmapData :=
  snapshot (branch "root" "Root" [leaf "X" "x"]) "root"
    [stringify_id "root"] T1.
Definition local_adds_Y : MindmapData :=
  snapshot (branch "root" "Root" [leaf "Y" "y"]) "root" [] T2.

(** The same below the root: both replicas add a child under N, and a
    record names N. *)
Definition cloud_adds_X_under_N : MindmapData :=
  snapshot (branch "root" "Root" [branch "N" "n" [leaf "X" "x"]]) "root"
    [stringify_id "N"] T1.
Definition local_adds_Y_under_N : MindmapData :=
  snapshot (branch "root" "Root" [branch "N" "n" [leaf "Y" "y"]]) "root" [] T2.

(** The addition scenario of the design document: root→{A} in the
    cloud, root→{A,B} locally and later, no deletion records. *)
Definition remote_A : MindmapData :=
  snapshot (branch "root" "Root" [leaf "A" "a"]) "root" [] T1.
Definition local_AB : MindmapData :=
  snapshot (branch "root" "Root" [leaf "A" "a"; leaf "B" "b"]) "root" [] T2.

Definition empty_post : Request :=
  {| method := "POST"; json := Ok (BodyValue None) |}.
Definition push_of (localData : MindmapData) : Request :=
  {| method := "POST"; json := Ok (BodyValue (Some localData)) |}.
Definition empty_world : World := {| MINDMAP_KV := ∅; clock := T3 |}.
Definition synced_world : World :=
  {| MINDMAP_KV := {[ "mindmap_data" := deleter T1 ]}; clock := T3 |}.

(** A newer and an older node for the scenarios on child order: the
    older one brings B, a second version of A, the tombstoned Z, and a
    branch P that holds the tombstoned G. *)
Definition newer_AK : Node :=
  branch "root" "Root" [leaf "A" "a2"; leaf "K" "k"].
Definition older_BAZP : Node :=
  branch "root" "Root"
    [leaf "B" "b"; leaf "A" "a1"; leaf "Z" "z"; branch "P" "p" [leaf "G" "g"]].
Definition tombstones_ZG : gset JsKey := {[ KString "Z"; KString "G" ]}.
Definition merged_AKBP : Node :=
  branch "root" "Root"
    [leaf "A" "a2"; leaf "K" "k"; leaf "B" "b"; branch "P" "p" [leaf "G" "g"]].

(** A stored snapshot whose records are duplicate-free, and a push that
    repeats one of them and brings a new one. *)
Definition cloud_records : MindmapData :=
  snapshot (leaf "root" "Root") "root" [stringify_id "K"; stringify_id "Z"] T1.
Definition local_records : MindmapData :=
  snapshot (leaf "root" "Root") "root"
    [stringify_id "Z"; stringify_id "G"; stringify_id "G"] T2.

(** The world and the answer after [editor T2] is pushed on an empty
    store. *)
Definition first_push_world : World :=
  {| MINDMAP_KV := <["mindmap_data" := editor T2]> ∅; clock := T3 |}.
Definition first_push_response : Response :=
  {| status := 200;
     headers := [("Content-Type", "application/json")];
     body := {| success := true; data := Some (Some (editor T2));
                error := None; stack := None |} |}.

Definition get_request : Request :=
  {| method := "GET"; json := Throw (SyntaxError "Unexpected end of JSON input") |}.
Definition patch_request : Request :=
  {| method := "PATCH"; json := Ok (BodyValue None) |}.

(** Two pushes whose body holds no snapshot because it is no object at
    all: the JSON text [null], and an empty body, on which [req.json()]
    rejects. *)
Definition null_post : Request :=
  {| method := "POST"; json := Ok BodyNull |}.
Definition undecodable_post : Request :=
  {| method := "POST";
     json := Throw (SyntaxError "Unexpected end of JSON input") |}.

Definition state_put (text : string) : StateRequest :=
  {| state_method := "PUT"; state_json := Ok (StateObject true text) |}.
Definition state_get : StateRequest :=
  {| state_method := "GET";
     state_json := Throw (SyntaxError "Unexpected end of JSON input") |}.
Definition state_delete : StateRequest :=
  {| state_method := "DELETE";
     state_json := Throw (SyntaxError "Unexpected end of JSON input") |}.
Definition state_put_number : StateRequest :=
  {| state_method := "PUT"; state_json := Ok (StatePrimitive "5") |}.
Definition empty_site : Site := {| sync_world := empty_world; VOCAB := ∅ |}.

(** An asset fetcher that knows two pages and answers 404 otherwise. *)
Definition two_pages (pathname : string) : AssetResponse :=
  if decide (pathname = "/index.html") then mkAssetResponse 200 "<index>"
  else if decide (pathname = "/quiz.html") then mkAssetResponse 200 "<quiz>"
  else mkAssetResponse 404 "Not found".
Definition page_request (pathname : string) : FetchRequest :=
  {| url_origin := "https://example.org"; url_pathname := pathname;
     fetch_method := "GET";
     body_for_sync := Throw (SyntaxError "Unexpected end of JSON input");
     body_for_state := Throw (SyntaxError "Unexpected end of JSON input") |}.

End Scenario.

(** * Properties *)

(** ** Insertion-ordered sets *)

Section SetFrom.
Context {A : Type} `{EqDecision A}.

Lemma Set_add_spec (s : list A) (a b : A) :
  b ∈ Set_add s a ↔ b ∈ s ∨ b = a.
Proof.
  unfold Set_add. case_decide; set_solver.
Qed.

Lemma Set_add_NoDup (s : list A) (a : A) : NoDup s → NoDup (Set_add s a).
Proof.
  intros Hs. unfold Set_add. case_decide; [done|].
  apply NoDup_app. split_and!; [done | set_solver | apply NoDup_singleton].
Qed.

Lemma foldl_Set_add_spec (l s : list A) (b : A) :
  b ∈ foldl Set_add s l ↔ b ∈ s ∨ b ∈ l.
Proof.
  revert s. induction l as [|a l IH]; intros s; simpl.
  - set_solver.
  - rewrite IH, Set_add_spec. set_solver.
Qed.

Lemma foldl_Set_add_NoDup (l s : list A) :
  NoDup s → NoDup (foldl Set_add s l).
Proof.
  revert s. induction l as [|a l IH]; intros s Hs; simpl; [done|].
  by apply IH, Set_add_NoDup.
Qed.

Lemma Set_from_spec (l : list A) (b : A) : b ∈ Set_from l ↔ b ∈ l.
Proof. unfold Set_from. rewrite foldl_Set_add_spec. set_solver. Qed.

Lemma Set_from_NoDup (l : list A) : NoDup (Set_from l).
Proof. apply foldl_Set_add_NoDup, NoDup_nil_2. Qed.
End SetFrom.

(** ** The deletion set *)

Section DeletionSet.
Context `{Runtime}.

(** A turn of the loop never throws: it adds the id it could read, or
    leaves the set alone. *)
Lemma add_record_id_ok (d : gset JsKey) (record : string) :
  add_record_id d record
  = Ok (match record_id record with Ok k => {[ k ]} ∪ d | Throw _ => d end).
Proof.
  unfold add_record_id, record_id, try_catch, mbind, mret, Exc_bind, Exc_ret.
  destruct (JSON_parse record) as [e|[|k]]; reflexivity.
Qed.

Lemma for_of_add_record_id (l : list string) (d : gset JsKey) :
  ∃ d', for_of l add_record_id d = Ok d'
        ∧ ∀ k, k ∈ d' ↔ k ∈ d ∨ ∃ r, r ∈ l ∧ record_id r = Ok k.
Proof.
  revert d. induction l as [|r l IH]; intros d; simpl.
  - exists d. split; [done|]. intros k. split; [by left|].
    intros [?|(r & Hr & _)]; [done|]. by apply elem_of_nil in Hr.
  - rewrite add_record_id_ok. simpl.
    destruct (IH (match record_id r with Ok k => {[ k ]} ∪ d | Throw _ => d end))
      as (d' & Hd' & Hmem).
    exists d'. split; [done|]. intros k. rewrite Hmem. split.
    + intros [Hk|(r' & Hr' & Hid)].
      * destruct (record_id r) as [e|k'] eqn:Hr; [by left|].
        apply elem_of_union in Hk as [Hk|Hk]; [|by left].
        apply elem_of_singleton in Hk as ->. right. exists r. split; [left|done].
      * right. exists r'. split; [by right|done].
    + intros [Hk|(r' & Hr' & Hid)].
      * left. destruct (record_id r); set_solver.
      * apply elem_of_cons in Hr' as [->|Hr'].
        -- left. rewrite Hid. set_solver.
        -- right. by exists r'.
Qed.

Lemma deletedIds_of_ok (cloudData localData : MindmapData) :
  for_of (allDeletedNodes cloudData localData) add_record_id ∅
  = Ok (deletedIds_of cloudData localData).
Proof.
  unfold deletedIds_of.
  destruct (for_of_add_record_id (allDeletedNodes cloudData localData) ∅)
    as (d & -> & _). done.
Qed.

Lemma allDeletedNodes_spec (cloudData localData : MindmapData) (r : string) :
  r ∈ allDeletedNodes cloudData localData
  ↔ r ∈ default [] (deletedNodes cloudData)
    ∨ r ∈ default [] (deletedNodes localData).
Proof.
  unfold allDeletedNodes.
  rewrite Set_from_spec, elem_of_app, !Set_from_spec. done.
Qed.

Lemma elem_of_deletedIds_of (cloudData localData : MindmapData) (k : JsKey) :
  k ∈ deletedIds_of cloudData localData
  ↔ ∃ r, (r ∈ default [] (deletedNodes cloudData)
          ∨ r ∈ default [] (deletedNodes localData))
         ∧ record_id r = Ok k.
Proof.
  destruct (for_of_add_record_id (allDeletedNodes cloudData localData) ∅)
    as (d & Hd & Hmem).
  rewrite deletedIds_of_ok in Hd. injection Hd as <-.
  rewrite Hmem. split.
  - intros [Hk|(r & Hr & Hid)]; [set_solver|].
    exists r. by rewrite <- allDeletedNodes_spec.
  - intros (r & Hr & Hid). right. exists r.
    by rewrite allDeletedNodes_spec.
Qed.

(** The reconciler as one equation: it always returns. *)
Lemma mergeMindmapData_ok (now : string) (cloudData localData : MindmapData) :
  mergeMindmapData now cloudData localData
  = Ok {| tree := mergeNodes (tree (newerData cloudData localData))
                    (tree (olderData cloudData localData))
                    (deletedIds_of cloudData localData);
          currentCenterId := currentCenterId (newerData cloudData localData);
          viewOffset := viewOffset (newerData cloudData localData);
          deletedNodes := Some (allDeletedNodes cloudData localData);
          timestamp := now |}.
Proof.
  unfold mergeMindmapData. rewrite deletedIds_of_ok. reflexivity.
Qed.
End DeletionSet.

(** ** The tree merger *)

Section TreeMerge.
Implicit Types (D : gset JsKey) (n o c : Node) (l : list Node) (k : JsKey).

Lemma mergeNodes_obj_eq D o n :
  mergeNodes_obj n o D
  = if decide (id n ∈ D) then None
    else if decide (id o ∈ D) then None
    else Some (mkNode (id n) (fields n)
                 (Some (foldl (merge_step D (kids n)) (kids n) (kids o)))).
Proof. destruct o as [ko fo [lo|]]; simpl; repeat case_decide; reflexivity. Qed.

Lemma mergeNodes_obj_id D o n m :
  mergeNodes_obj n o D = Some m → id m = id n ∧ fields m = fields n.
Proof.
  rewrite mergeNodes_obj_eq. repeat case_decide; [done..|].
  intros [= <-]. done.
Qed.

(** *** The id index over the newer children *)

Lemma childMap_foldl_fresh l k (mp : gmap JsKey Node) :
  k ∉ child_ids l →
  foldl (λ m child, <[id child := child]> m) mp l !! k = mp !! k.
Proof.
  revert mp. induction l as [|c l IH]; intros mp Hk; simpl; [done|].
  unfold child_ids in Hk. rewrite fmap_cons, not_elem_of_cons in Hk.
  destruct Hk as [Hne Hk]. rewrite IH by done.
  by rewrite lookup_insert_ne.
Qed.

Lemma childMap_foldl_Some l k c (mp : gmap JsKey Node) :
  foldl (λ m child, <[id child := child]> m) mp l !! k = Some c →
  (c ∈ l ∧ id c = k) ∨ mp !! k = Some c.
Proof.
  revert mp. induction l as [|c' l IH]; intros mp; simpl; [by right|].
  intros Hl. apply IH in Hl as [[Hc Hid]|Hl].
  - left. split; [by right|done].
  - destruct (decide (id c' = k)) as [<-|Hne].
    + rewrite lookup_insert_eq in Hl. injection Hl as <-. left. split; [left|done].
    + rewrite lookup_insert_ne in Hl by done. by right.
Qed.

Lemma childMap_foldl_is_Some l k (mp : gmap JsKey Node) :
  is_Some (foldl (λ m child, <[id child := child]> m) mp l !! k)
  ↔ k ∈ child_ids l ∨ is_Some (mp !! k).
Proof.
  revert mp. induction l as [|c l IH]; intros mp; simpl.
  - unfold child_ids. set_solver.
  - rewrite IH, lookup_insert_is_Some'. unfold child_ids.
    rewrite elem_of_cons. naive_solver.
Qed.

Lemma childMap_None l k : childMap l !! k = None ↔ k ∉ child_ids l.
Proof.
  rewrite eq_None_not_Some. unfold childMap.
  rewrite childMap_foldl_is_Some, lookup_empty.
  split; [naive_solver|]. intros Hk [?|[? ?]]; done.
Qed.

Lemma childMap_Some l k c : childMap l !! k = Some c → c ∈ l ∧ id c = k.
Proof.
  intros Hl. apply childMap_foldl_Some in Hl as [?|Hl]; [done|].
  by rewrite lookup_empty in Hl.
Qed.

(** *** Looking a child up by id *)

Lemma child_by_id_Some k l c :
  child_by_id k l = Some c → c ∈ l ∧ id c = k.
Proof.
  unfold child_by_id. intros Hc.
  apply fmap_Some in Hc as ([i c'] & Hfind & ->).
  apply list_find_Some in Hfind as (Hi & Hid & _).
  split; [by eapply list_elem_of_lookup_2|done].
Qed.

Lemma child_by_id_None k l : child_by_id k l = None ↔ k ∉ child_ids l.
Proof.
  unfold child_by_id, child_ids. rewrite fmap_None, list_find_None, Forall_forall.
  rewrite list_elem_of_fmap. naive_solver.
Qed.

Lemma child_by_id_NoDup l c :
  NoDup (child_ids l) → c ∈ l → child_by_id (id c) l = Some c.
Proof.
  intros Hnd Hc. destruct (child_by_id (id c) l) as [c'|] eqn:Hfind.
  - apply child_by_id_Some in Hfind as [Hc' Hid].
    apply list_elem_of_lookup in Hc as [i Hi], Hc' as [j Hj].
    assert (i = j) as ->.
    { apply (NoDup_lookup (child_ids l) i j (id c) Hnd); unfold child_ids;
        rewrite list_lookup_fmap; [rewrite Hi|rewrite Hj]; simpl; congruence. }
    congruence.
  - apply child_by_id_None in Hfind. exfalso. apply Hfind.
    unfold child_ids. apply list_elem_of_fmap. eauto.
Qed.

Lemma child_by_id_snoc k l o :
  child_by_id k (l ++ [o])
  = match child_by_id k l with
    | Some c => Some c
    | None => if decide (id o = k) then Some o else None
    end.
Proof.
  unfold child_by_id. induction l as [|c l IH]; simpl.
  - destruct (decide (id o = k)); done.
  - destruct (decide (id c = k)); [done|].
    destruct (list_find _ (l ++ [o])) as [[??]|], (list_find _ l) as [[??]|];
      simpl in *; exact IH.
Qed.

(** *** The loop over the older children, without the loop *)

Lemma merged_child_id D l c : id (merged_child D l c) = id c.
Proof.
  unfold merged_child. case_decide; [done|].
  destruct (child_by_id (id c) l) as [o|]; [|done].
  destruct (mergeNodes_obj c o D) as [m|] eqn:Hm; [|done].
  simpl. by apply mergeNodes_obj_id in Hm as [? _].
Qed.

Lemma merged_child_fields D l c : fields (merged_child D l c) = fields c.
Proof.
  unfold merged_child. case_decide; [done|].
  destruct (child_by_id (id c) l) as [o|]; [|done].
  destruct (mergeNodes_obj c o D) as [m|] eqn:Hm; [|done].
  simpl. by apply mergeNodes_obj_id in Hm as [_ ?].
Qed.

Lemma child_ids_merged D l nl :
  child_ids (merged_child D l <$> nl) = child_ids nl.
Proof.
  unfold child_ids. rewrite <- list_fmap_compose.
  apply list_fmap_ext. intros i c _. simpl. apply merged_child_id.
Qed.

Lemma child_ids_app l1 l2 :
  child_ids (l1 ++ l2) = child_ids l1 ++ child_ids l2.
Proof. apply fmap_app. Qed.

Lemma merged_child_nil D c : merged_child D [] c = c.
Proof. unfold merged_child. by case_decide. Qed.

Lemma merged_child_snoc_other D l o c :
  id o ≠ id c ∨ id c ∈ D →
  merged_child D (l ++ [o]) c = merged_child D l c.
Proof.
  intros Hoc. unfold merged_child. case_decide; [done|].
  rewrite child_by_id_snoc.
  destruct (child_by_id (id c) l); [done|].
  case_decide; [|done]. naive_solver.
Qed.

Lemma merged_child_snoc_match D l o c :
  id c ∉ D → id o = id c → id o ∉ child_ids l →
  merged_child D (l ++ [o]) c = default c (mergeNodes_obj c o D)
  ∧ merged_child D l c = c.
Proof.
  intros Hc Hoc Ho. unfold merged_child. rewrite !decide_False by done.
  rewrite child_by_id_snoc.
  rewrite Hoc in Ho. apply child_by_id_None in Ho. rewrite Ho.
  by rewrite decide_True.
Qed.

Lemma findIndex_prefix k l extra i c :
  NoDup (child_ids l) → l !! i = Some c → id c = k →
  findIndex k (l ++ extra) = Some i.
Proof.
  intros Hnd Hi Hid. unfold findIndex.
  assert (list_find (λ c, id c = k) (l ++ extra) = Some (i, c)) as ->; [|done].
  apply list_find_Some. split_and!.
  - by apply lookup_app_l_Some.
  - done.
  - intros j y Hj Hlt Hy.
    assert (j < length l) as Hjl by (apply lookup_lt_Some in Hi; lia).
    rewrite lookup_app_l in Hj by done.
    assert (j = i); [|lia].
    apply (NoDup_lookup (child_ids l) j i k Hnd); unfold child_ids;
      rewrite list_lookup_fmap; [rewrite Hj|rewrite Hi]; simpl; congruence.
Qed.

Lemma merge_loop_spec D nl ol :
  NoDup (child_ids nl) → NoDup (child_ids ol) →
  foldl (merge_step D nl) nl ol = merged_children D ol nl.
Proof.
  intros Hnl. induction ol as [|o ol IH] using rev_ind; intros Hol.
  - simpl. unfold merged_children. rewrite filter_nil, app_nil_r.
    symmetry. rewrite <- (list_fmap_id nl) at 2.
    apply list_fmap_ext. intros i c _. apply merged_child_nil.
  - unfold child_ids in Hol. rewrite fmap_app in Hol.
    apply NoDup_app in Hol as (Hol & Hfresh & _).
    assert (id o ∉ child_ids ol) as Ho.
    { intros Hin. apply (Hfresh _ Hin). simpl. left. }
    rewrite foldl_app. simpl. rewrite IH by done. clear IH.
    unfold merged_children. rewrite filter_app.
    unfold merge_step.
    destruct (decide (id o ∈ D)) as [Hdel|Hlive].
    { (* a tombstoned older child is skipped *)
      rewrite filter_cons_False, filter_nil, app_nil_r by naive_solver.
      f_equal. apply list_fmap_ext. intros i c Hc. symmetry.
      apply merged_child_snoc_other.
      destruct (decide (id c ∈ D)); [by right|left; congruence]. }
    destruct (childMap nl !! id o) as [nc|] eqn:Hmap.
    2:{ (* a branch the newer side does not have is appended *)
      apply childMap_None in Hmap.
      rewrite filter_cons_True, filter_nil by done.
      rewrite app_assoc. f_equal. f_equal.
      apply list_fmap_ext. intros i c Hc. symmetry.
      apply merged_child_snoc_other. left. intros Heq. apply Hmap.
      rewrite Heq. unfold child_ids. apply list_elem_of_fmap.
      eauto using list_elem_of_lookup_2. }
    (* a child present on both sides is merged in place *)
    apply childMap_Some in Hmap as [Hnc Hid].
    assert (id o ∈ child_ids nl) as Hin.
    { rewrite <- Hid. unfold child_ids. apply list_elem_of_fmap. eauto. }
    rewrite filter_cons_False, filter_nil, app_nil_r by naive_solver.
    apply list_elem_of_lookup in Hnc as [i Hi].
    assert (∀ j c, nl !! j = Some c → j ≠ i →
              merged_child D (ol ++ [o]) c = merged_child D ol c) as Hother.
    { intros j c Hj Hne. apply merged_child_snoc_other. left.
      intros Heq. apply Hne.
      apply (NoDup_lookup (child_ids nl) j i (id c) Hnl); unfold child_ids;
        rewrite list_lookup_fmap; [rewrite Hj|rewrite Hi]; simpl; congruence. }
    destruct (merged_child_snoc_match D ol o nc) as [Hnew Hold];
      [congruence|done|done|].
    destruct (mergeNodes_obj nc o D) as [m|] eqn:Hm.
    + erewrite findIndex_prefix; cycle 1.
      * by rewrite child_ids_merged.
      * rewrite list_lookup_fmap, Hi. reflexivity.
      * by rewrite merged_child_id.
      * rewrite insert_app_l
          by (rewrite length_fmap; by eapply lookup_lt_Some).
        f_equal. apply list_eq. intros j.
        destruct (decide (j = i)) as [->|Hne].
        -- rewrite list_lookup_insert_eq
             by (rewrite length_fmap; by eapply lookup_lt_Some).
           rewrite list_lookup_fmap, Hi. simpl. by rewrite Hnew.
        -- rewrite list_lookup_insert_ne by done.
           rewrite !list_lookup_fmap.
           destruct (nl !! j) as [c|] eqn:Hj; [|done]. simpl.
           by rewrite (Hother j c).
    + f_equal. apply list_fmap_ext. intros j c Hj.
      destruct (decide (j = i)) as [->|Hne].
      * assert (c = nc) as -> by congruence. by rewrite Hnew, Hold.
      * symmetry. by apply (Hother j c).
Qed.

(** [mergeNodes] on two live objects whose children have distinct ids. *)
Lemma mergeNodes_obj_spec D o n :
  id n ∉ D → id o ∉ D →
  NoDup (child_ids (kids n)) → NoDup (child_ids (kids o)) →
  mergeNodes_obj n o D
  = Some (mkNode (id n) (fields n)
            (Some (merged_children D (kids o) (kids n)))).
Proof.
  intros Hn Ho Hnn Hno. rewrite mergeNodes_obj_eq.
  rewrite !decide_False by done. by rewrite merge_loop_spec.
Qed.

Lemma mergeNodes_obj_Some_live D o n m :
  mergeNodes_obj n o D = Some m → (id n ∉ D) ∧ (id o ∉ D).
Proof. rewrite mergeNodes_obj_eq. repeat case_decide; done. Qed.

Lemma mergeNodes_obj_is_Some D o n :
  id n ∉ D → id o ∉ D → is_Some (mergeNodes_obj n o D).
Proof.
  intros Hn Ho. rewrite mergeNodes_obj_eq, !decide_False by done. eauto.
Qed.

(** *** Well-formed trees *)

Lemma distinct_siblings_kids n :
  distinct_siblings n = true →
  NoDup (child_ids (kids n)) ∧ ∀ c, c ∈ kids n → distinct_siblings c = true.
Proof.
  destruct n as [k f [l|]]; simpl.
  - intros [Hnd Hall]%andb_true_iff. split.
    + by apply bool_decide_eq_true in Hnd.
    + intros c Hc. rewrite forallb_forall in Hall.
      by apply Hall, list_elem_of_In.
  - intros _. split; [apply NoDup_nil_2|]. intros c Hc.
    by apply elem_of_nil in Hc.
Qed.

Lemma tree_ids_root n : id n ∈ tree_ids n.
Proof. destruct n as [k f l]. simpl. left. Qed.

Lemma tree_ids_child n c k :
  c ∈ kids n → k ∈ tree_ids c → k ∈ tree_ids n.
Proof.
  destruct n as [k0 f [l|]]; simpl; intros Hc Hk.
  - right. apply list_elem_of_In, in_concat. exists (tree_ids c).
    split; [|by apply list_elem_of_In].
    apply in_map, list_elem_of_In, Hc.
  - by apply elem_of_nil in Hc.
Qed.

Lemma tree_ids_inv n k :
  k ∈ tree_ids n → k = id n ∨ ∃ c, c ∈ kids n ∧ k ∈ tree_ids c.
Proof.
  destruct n as [k0 f [l|]]; simpl; intros [->|Hk]%elem_of_cons; [by left| |by left|].
  - right. apply list_elem_of_In, in_concat in Hk as (ids & Hids & Hk).
    apply in_map_iff in Hids as (c & <- & Hc).
    exists c. by rewrite !list_elem_of_In.
  - by apply elem_of_nil in Hk.
Qed.

Lemma node_at_tree_ids p n x : node_at p n = Some x → id x ∈ tree_ids n.
Proof.
  revert n. induction p as [|k p IH]; intros n; simpl.
  - intros [= <-]. apply tree_ids_root.
  - destruct (child_by_id k (kids n)) as [c|] eqn:Hc; [|done]. simpl.
    intros Hx. apply child_by_id_Some in Hc as [Hc _].
    eapply tree_ids_child; eauto.
Qed.

(** In a tree with distinct sibling ids every node is reached by the
    path of ids that leads to it. *)
Lemma tree_ids_node_at n k :
  distinct_siblings n = true → k ∈ tree_ids n →
  ∃ p x, node_at p n = Some x ∧ id x = k.
Proof.
  revert k. induction n as [k0 f|k0 f l IH] using Node_nested_ind;
    intros k Hwf Hk.
  - apply tree_ids_inv in Hk as [->|(c & Hc & _)].
    + by exists [], (mkNode k0 f None).
    + by apply elem_of_nil in Hc.
  - apply tree_ids_inv in Hk as [->|(c & Hc & Hk)].
    + by exists [], (mkNode k0 f (Some l)).
    + apply distinct_siblings_kids in Hwf as [Hnd Hall]. simpl in *.
      rewrite Forall_forall in IH.
      destruct (IH c Hc k (Hall c Hc) Hk) as (p & x & Hp & Hx).
      exists (id c :: p), x. split; [|done]. simpl.
      unfold kids; simpl. by rewrite child_by_id_NoDup.
Qed.

Lemma node_at_distinct_siblings p n x :
  distinct_siblings n = true → node_at p n = Some x →
  distinct_siblings x = true.
Proof.
  revert n. induction p as [|k p IH]; intros n Hwf; simpl.
  - by intros [= <-].
  - destruct (child_by_id k (kids n)) as [c|] eqn:Hc; [|done]. simpl.
    apply child_by_id_Some in Hc as [Hc _].
    apply IH. by apply distinct_siblings_kids in Hwf as [_ ?]; auto.
Qed.

(** The data-model invariant, all ids of a tree distinct, gives distinct
    sibling ids at every node. *)
Lemma NoDup_concat_tree_ids l :
  NoDup (concat (map tree_ids l)) →
  NoDup (child_ids l) ∧ ∀ c, c ∈ l → NoDup (tree_ids c).
Proof.
  induction l as [|c l IH]; simpl.
  - intros _. split; [apply NoDup_nil_2|]. intros c Hc.
    by apply elem_of_nil in Hc.
  - intros (Hc & Hdisj & Hl)%NoDup_app.
    destruct (IH Hl) as [Hids Hall]. split.
    + apply NoDup_cons. split; [|done].
      intros (c' & Heq & Hc')%list_elem_of_fmap.
      apply (Hdisj (id c) (tree_ids_root c)).
      apply list_elem_of_In, in_concat. exists (tree_ids c'). split.
      * apply in_map, list_elem_of_In, Hc'.
      * rewrite Heq. apply list_elem_of_In, tree_ids_root.
    + intros c' [->|Hc']%elem_of_cons; auto.
Qed.

Lemma NoDup_tree_ids_distinct_siblings n :
  NoDup (tree_ids n) → distinct_siblings n = true.
Proof.
  induction n as [k f|k f l IH] using Node_nested_ind; [done|].
  simpl. intros [_ Hl]%NoDup_cons.
  apply NoDup_concat_tree_ids in Hl as [Hids Hall].
  apply andb_true_iff. split; [by apply bool_decide_eq_true|].
  apply forallb_forall. intros c Hc%list_elem_of_In.
  rewrite Forall_forall in IH. auto.
Qed.

Lemma filter_none {A} (P : A → Prop) `{∀ x, Decision (P x)} (l : list A) :
  (∀ x, x ∈ l → ¬ P x) → filter P l = [].
Proof.
  induction l as [|a l IH]; intros Hl; [done|].
  rewrite filter_cons_False by (apply Hl; left).
  apply IH. intros x Hx. apply Hl. by right.
Qed.

(** *** Merging a tree with itself *)

Lemma mergeNodes_obj_self D n :
  distinct_siblings n = true → has_children_arrays n = true → id n ∉ D →
  mergeNodes_obj n n D = Some n.
Proof.
  induction n as [k f|k f l IH] using Node_nested_ind;
    intros Hwf Harr Hlive; [done|].
  pose proof (distinct_siblings_kids _ Hwf) as [Hnd Hall].
  rewrite mergeNodes_obj_spec by done. simpl in *.
  do 3 f_equal. unfold kids, merged_children; simpl.
  rewrite filter_none, app_nil_r.
  - rewrite <- (list_fmap_id l) at 3. apply list_fmap_ext.
    intros i c Hc%list_elem_of_lookup_2. simpl.
    unfold merged_child. case_decide; [done|].
    rewrite child_by_id_NoDup by done.
    rewrite Forall_forall in IH. rewrite IH; auto.
    rewrite forallb_forall in Harr. by apply Harr, list_elem_of_In.
  - intros c Hc [_ Hnot]. apply Hnot. unfold child_ids.
    apply list_elem_of_fmap. eauto.
Qed.

Lemma mergeNodes_obj_kids D o n m :
  distinct_siblings n = true → distinct_siblings o = true →
  mergeNodes_obj n o D = Some m →
  kids m = merged_children D (kids o) (kids n).
Proof.
  intros Hwf Hwfo Hm.
  pose proof (distinct_siblings_kids _ Hwf) as [Hnd _].
  pose proof (distinct_siblings_kids _ Hwfo) as [Hndo _].
  pose proof (mergeNodes_obj_Some_live _ _ _ _ Hm) as [Hn Ho].
  rewrite mergeNodes_obj_spec in Hm by done. by injection Hm as <-.
Qed.

(** *** Paths through a merged tree *)

Lemma child_by_id_lookup k l c :
  child_by_id k l = Some c
  ↔ ∃ i, l !! i = Some c ∧ id c = k
         ∧ ∀ j y, l !! j = Some y → j < i → id y ≠ k.
Proof.
  unfold child_by_id. rewrite fmap_Some. split.
  - intros ([i c'] & Hfind & ->).
    apply list_find_Some in Hfind. by exists i.
  - intros (i & Hfind). exists (i, c). split; [|done].
    by apply list_find_Some.
Qed.

Lemma child_by_id_fmap_app (f : Node → Node) k l extra c :
  (∀ c, id (f c) = id c) → child_by_id k l = Some c →
  child_by_id k ((f <$> l) ++ extra) = Some (f c).
Proof.
  intros Hf (i & Hi & Hid & Hfirst)%child_by_id_lookup.
  apply child_by_id_lookup. exists i. split_and!.
  - apply lookup_app_l_Some. by rewrite list_lookup_fmap, Hi.
  - by rewrite Hf.
  - intros j y Hj Hlt.
    assert (j < length (f <$> l)) as Hjl.
    { rewrite length_fmap. apply lookup_lt_Some in Hi. lia. }
    rewrite lookup_app_l, list_lookup_fmap in Hj by done.
    destruct (l !! j) as [y'|] eqn:Hj'; [|done].
    injection Hj as <-. rewrite Hf. eauto.
Qed.

Lemma merge_image_payload D n m :
  merge_image D n m → id m = id n ∧ fields m = fields n.
Proof.
  intros [->|(o & _ & Hm)]; [done|]. by apply mergeNodes_obj_id in Hm.
Qed.

Lemma merge_image_child D ol c :
  (∀ o, o ∈ ol → distinct_siblings o = true) →
  merge_image D c (merged_child D ol c).
Proof.
  intros Hol. unfold merged_child. case_decide; [by left|].
  destruct (child_by_id (id c) ol) as [o|] eqn:Ho; [|by left].
  destruct (mergeNodes_obj c o D) as [m|] eqn:Hm; [|by left].
  right. exists o. split; [|done].
  apply child_by_id_Some in Ho as [Ho _]. auto.
Qed.

(** Every node of the newer tree is found again, at the same path, in
    the merged tree, with its id and fields. *)
Lemma node_at_merge_image D p n m x :
  merge_image D n m → distinct_siblings n = true → node_at p n = Some x →
  ∃ x', node_at p m = Some x' ∧ merge_image D x x'.
Proof.
  revert n m. induction p as [|k p IH]; intros n m Him Hwf; simpl.
  - intros [= <-]. by exists m.
  - destruct (child_by_id k (kids n)) as [c|] eqn:Hc; [|done]. simpl.
    intros Hx. destruct Him as [->|(o & Hwfo & Hm)].
    { exists x. rewrite Hc. simpl. split; [done|by left]. }
    pose proof (distinct_siblings_kids _ Hwf) as [_ Hall].
    pose proof (distinct_siblings_kids _ Hwfo) as [_ Hallo].
    rewrite (mergeNodes_obj_kids _ _ _ _ Hwf Hwfo Hm). unfold merged_children.
    rewrite (child_by_id_fmap_app _ _ _ _ c) by (done || apply merged_child_id).
    simpl. apply (IH c); [by apply merge_image_child| |done].
    apply Hall. by apply child_by_id_Some in Hc as [? _].
Qed.

(** A node present at the same path on both sides, with no tombstone
    on the way, is the merge of its two versions. *)
Lemma node_at_mergeNodes_obj n p D o m xn xo :
  distinct_siblings n = true → distinct_siblings o = true →
  mergeNodes_obj n o D = Some m → Forall (λ k, k ∉ D) p →
  node_at p n = Some xn → node_at p o = Some xo →
  ∃ xm, node_at p m = Some xm ∧ mergeNodes_obj xn xo D = Some xm.
Proof.
  revert n o m. induction p as [|k p IH]; intros n o m Hwf Hwfo Hm Hp; simpl.
  - intros [= <-] [= <-]. by exists m.
  - destruct (child_by_id k (kids n)) as [cn|] eqn:Hcn; [|done].
    destruct (child_by_id k (kids o)) as [co|] eqn:Hco; [|done]. simpl.
    intros Hxn Hxo. apply Forall_cons in Hp as [Hk Hp].
    pose proof (distinct_siblings_kids _ Hwf) as [_ Hall].
    pose proof (distinct_siblings_kids _ Hwfo) as [_ Hallo].
    rewrite (mergeNodes_obj_kids _ _ _ _ Hwf Hwfo Hm). unfold merged_children.
    rewrite (child_by_id_fmap_app _ _ _ _ cn) by (done || apply merged_child_id).
    simpl.
    pose proof (child_by_id_Some _ _ _ Hcn) as [Hcn_in Hcn_id].
    pose proof (child_by_id_Some _ _ _ Hco) as [Hco_in Hco_id].
    destruct (mergeNodes_obj_is_Some D co cn) as [cm Hcm]; [congruence..|].
    assert (merged_child D (kids o) cn = cm) as ->.
    { unfold merged_child. rewrite decide_False by congruence.
      rewrite Hcn_id, Hco. by rewrite Hcm. }
    apply (IH cn co); auto.
Qed.

(** The children of a merged node: those of the newer side, then the
    live additions of the older side. *)
Lemma mergeNodes_obj_children D o n m cn co :
  distinct_siblings n = true → distinct_siblings o = true →
  mergeNodes_obj n o D = Some m →
  cn ∈ kids n → co ∈ kids o → id co ∉ D →
  id cn ∈ child_ids (kids m) ∧ id co ∈ child_ids (kids m)
  ∧ (id cn ∉ child_ids (kids o) → cn ∈ kids m)
  ∧ (id co ∉ child_ids (kids n) → co ∈ kids m).
Proof.
  intros Hwf Hwfo Hm Hcn Hco Hlive.
  rewrite (mergeNodes_obj_kids _ _ _ _ Hwf Hwfo Hm). unfold merged_children.
  assert (id cn ∈ child_ids (kids n)) as Hcn_id.
  { unfold child_ids. apply list_elem_of_fmap. eauto. }
  rewrite !child_ids_app, !child_ids_merged. split_and!.
  - apply elem_of_app. by left.
  - apply elem_of_app.
    destruct (decide (id co ∈ child_ids (kids n))); [by left|right].
    unfold child_ids at 1. apply list_elem_of_fmap. exists co. split; [done|].
    by apply list_elem_of_filter.
  - intros Hadd. apply elem_of_app. left.
    apply list_elem_of_fmap. exists cn. split; [|done].
    unfold merged_child. case_decide; [done|].
    apply child_by_id_None in Hadd. by rewrite Hadd.
  - intros Hadd. apply elem_of_app. right.
    by apply list_elem_of_filter.
Qed.
End TreeMerge.

(** ** The reconciler and the endpoint *)

Section Claims.
Context `{Runtime}.

Lemma js_gt_refl (a : option Z) : js_gt a a = false.
Proof.
  destruct a as [z|]; [|done]. simpl. apply bool_decide_eq_false. lia.
Qed.

(** C3. When the two timestamps denote the same instant, the cloud
    (remote) snapshot is the newer one and the local snapshot the older
    one: the merged tree is [mergeNodes] of the cloud tree over the local
    tree, and [currentCenterId] and [viewOffset] are the cloud's. *)
Theorem C3_tie_makes_cloud_newer (now : string)
    (cloudData localData : MindmapData) :
  Date_getTime (timestamp localData) = Date_getTime (timestamp cloudData) →
  newerData cloudData localData = cloudData
  ∧ olderData cloudData localData = localData
  ∧ ∃ m, mergeMindmapData now cloudData localData = Ok m
         ∧ tree m = mergeNodes (tree cloudData) (tree localData)
                      (deletedIds_of cloudData localData)
         ∧ currentCenterId m = currentCenterId cloudData
         ∧ viewOffset m = viewOffset cloudData.
Proof.
  intros Htie.
  assert (js_gt (localTime localData) (cloudTime cloudData) = false) as Hgt.
  { unfold localTime, cloudTime. rewrite Htie. apply js_gt_refl. }
  assert (newerData cloudData localData = cloudData) as Hn
    by (unfold newerData; by rewrite Hgt).
  assert (olderData cloudData localData = localData) as Ho
    by (unfold olderData; by rewrite Hgt).
  split_and!; [done..|].
  eexists. split; [apply mergeMindmapData_ok|]. simpl.
  by rewrite Hn, Ho.
Qed.

(** C4. The deletion records of the merged snapshot are exactly the
    union of the records of the two inputs, each listed once; a missing
    [deletedNodes] field counts as empty.  Nothing is dropped and
    nothing is invented. *)
Theorem C4_tombstones_are_the_union (now : string)
    (cloudData localData : MindmapData) :
  ∃ m records,
    mergeMindmapData now cloudData localData = Ok m
    ∧ deletedNodes m = Some records
    ∧ NoDup records
    ∧ ∀ r, r ∈ records
           ↔ r ∈ default [] (deletedNodes cloudData)
             ∨ r ∈ default [] (deletedNodes localData).
Proof.
  eexists _, (allDeletedNodes cloudData localData).
  split; [apply mergeMindmapData_ok|]. simpl. split_and!.
  - done.
  - apply Set_from_NoDup.
  - apply allDeletedNodes_spec.
Qed.

(** C9. A deletion record that does not parse (the text is not JSON, or
    it is [null]) leaves the deletion set as it was and raises nothing; a
    record without a string [id] adds no node id; the string ids of the
    deletion set are exactly those read from the records of both inputs;
    and [mergeMindmapData] returns a snapshot whatever the records are. *)
Theorem C9_malformed_records_are_skipped (now : string)
    (cloudData localData : MindmapData) :
  (∀ d r e, record_id r = Throw e → add_record_id d r = Ok d)
  ∧ (∀ d r, (∀ s, record_id r ≠ Ok (KString s)) →
       ∃ d', add_record_id d r = Ok d'
             ∧ ∀ s, KString s ∈ d' ↔ KString s ∈ d)
  ∧ (∀ k, k ∈ deletedIds_of cloudData localData
          ↔ ∃ r, (r ∈ default [] (deletedNodes cloudData)
                  ∨ r ∈ default [] (deletedNodes localData))
                 ∧ record_id r = Ok k)
  ∧ ∃ m, mergeMindmapData now cloudData localData = Ok m
         ∧ tree m = mergeNodes (tree (newerData cloudData localData))
                      (tree (olderData cloudData localData))
                      (deletedIds_of cloudData localData).
Proof.
  split_and!.
  - intros d r e Hr. by rewrite add_record_id_ok, Hr.
  - intros d r Hr. rewrite add_record_id_ok. eexists. split; [done|].
    intros s. destruct (record_id r) as [e|[|s']] eqn:Hid; [done| |].
    + set_solver.
    + by destruct (Hr s').
  - apply elem_of_deletedIds_of.
  - eexists. split; [apply mergeMindmapData_ok|done].
Qed.

(** C10. The timestamp of the merged snapshot is the clock reading taken
    when the reconciliation runs, whatever the timestamps of the two
    inputs are; through the endpoint, it is the clock of the world in
    which the request is served. *)
Theorem C10_timestamp_is_the_clock_reading (now : string)
    (cloudData localData : MindmapData) :
  (∃ m, mergeMindmapData now cloudData localData = Ok m ∧ timestamp m = now)
  ∧ ∀ req cors w,
      method req = "POST" → json req = Ok (BodyValue (Some localData)) →
      MINDMAP_KV w !! "mindmap_data" = Some cloudData →
      ∃ resp m, handleSync req cors w
                = (Ok resp, {| MINDMAP_KV := <["mindmap_data" := m]> (MINDMAP_KV w);
                               clock := clock w |})
                ∧ data (body resp) = Some (Some m)
                ∧ timestamp m = clock w.
Proof.
  split.
  - eexists. split; [apply mergeMindmapData_ok|done].
  - intros req cors w Hpost Hbody Hkv.
    unfold handleSync, task_try_catch.
    rewrite decide_False by (rewrite Hpost; done).
    rewrite decide_True by done.
    unfold mbind, mret, Task_bind, Task_ret, task_of_exc, KV_get, KV_put, Date_now.
    rewrite Hbody. simpl. rewrite Hkv. rewrite mergeMindmapData_ok.
    eexists _, _. split; [reflexivity|]. done.
Qed.

(** C8. A POST on an empty store whose body decodes to a value other
    than [null] and holds no local snapshot ([localData] null or absent)
    is answered with status 400, [success: false] and the error text
    "No data provided"; it is not the 500 of a server fault, and the
    store is left as it was.  The decoding is a real condition: a body
    that is [null] or cannot be decoded makes line 123 or 124 throw. *)
Theorem C8_no_data_is_a_client_error (req : Request)
    (corsHeaders : list (string * string)) (w : World) :
  method req = "POST" →
  json req = Ok (BodyValue None) →
  MINDMAP_KV w !! "mindmap_data" = None →
  ∃ resp, handleSync req corsHeaders w = (Ok resp, w)
          ∧ status resp = 400%Z
          ∧ status resp ≠ 500%Z
          ∧ body resp = {| success := false; data := None;
                           error := Some "No data provided"; stack := None |}.
Proof.
  intros Hpost Hbody Hkv.
  unfold handleSync, task_try_catch.
  rewrite decide_False by (rewrite Hpost; done).
  rewrite decide_True by done.
  unfold mbind, mret, Task_bind, Task_ret, task_of_exc, KV_get.
  rewrite Hbody. simpl. rewrite Hkv.
  eexists. split; [reflexivity|]. done.
Qed.


Lemma js_gt_lt (x y : Z) : (y < x)%Z → js_gt (Some x) (Some y) = true.
Proof. intros. simpl. by apply bool_decide_eq_true. Qed.

Lemma js_gt_ge (x y : Z) : (x ≤ y)%Z → js_gt (Some x) (Some y) = false.
Proof. intros. simpl. apply bool_decide_eq_false. lia. Qed.

Lemma newerData_cases (cloudData localData : MindmapData) :
  (newerData cloudData localData = localData
   ∧ olderData cloudData localData = cloudData)
  ∨ (newerData cloudData localData = cloudData
     ∧ olderData cloudData localData = localData).
Proof.
  unfold newerData, olderData.
  destruct (js_gt _ _); [by left|by right].
Qed.

(** The merged snapshot takes its scalars from the newer snapshot. *)
Lemma scalars_from_newerData (now : string) (cloudData localData : MindmapData) :
  ∃ m, mergeMindmapData now cloudData localData = Ok m
       ∧ scalars_from (deletedIds_of cloudData localData) m
           (newerData cloudData localData) (olderData cloudData localData).
Proof.
  eexists. split; [apply mergeMindmapData_ok|].
  split_and!; [done..|]. simpl.
  intros tn to Htn Hto Hwfn Hwfo Hn Ho. rewrite Htn, Hto. simpl.
  destruct (mergeNodes_obj_is_Some _ to tn Hn Ho) as [tm Htm].
  exists tm. split; [done|]. intros p x Hx.
  destruct (node_at_merge_image (deletedIds_of cloudData localData) p tn tm x)
    as (x' & Hx' & Him); [right; eauto|done..|].
  exists x'. split; [done|]. by apply merge_image_payload in Him.
Qed.

(** C2. The snapshot with the strictly later timestamp gives
    the merged snapshot its scalars: [currentCenterId], [viewOffset]
    and, for trees with distinct sibling ids whose roots are not
    tombstoned, the id and fields of each of its nodes, found at the same
    path in the merged tree.  When the two timestamps denote the same
    instant, it is the cloud (remote) snapshot that gives them. *)
Theorem C2_newer_wins_and_cloud_wins_a_tie (now : string)
    (cloudData localData : MindmapData) :
  ∃ m, mergeMindmapData now cloudData localData = Ok m
    ∧ (∀ tl tc, Date_getTime (timestamp localData) = Some tl →
                Date_getTime (timestamp cloudData) = Some tc →
                (tc < tl)%Z →
                scalars_from (deletedIds_of cloudData localData) m
                  localData cloudData)
    ∧ (∀ tl tc, Date_getTime (timestamp localData) = Some tl →
                Date_getTime (timestamp cloudData) = Some tc →
                (tl < tc)%Z →
                scalars_from (deletedIds_of cloudData localData) m
                  cloudData localData)
    ∧ (Date_getTime (timestamp localData)
         = Date_getTime (timestamp cloudData) →
       scalars_from (deletedIds_of cloudData localData) m
         cloudData localData).
Proof.
  destruct (scalars_from_newerData now cloudData localData) as (m & Hm & Hs).
  exists m. split; [done|].
  unfold newerData, olderData, localTime, cloudTime in Hs. split_and!.
  - intros tl tc Hl Hc Hlt. rewrite Hl, Hc, js_gt_lt in Hs; done.
  - intros tl tc Hl Hc Hlt. rewrite Hl, Hc, js_gt_ge in Hs; [done|lia].
  - intros Htie. rewrite Htie, js_gt_refl in Hs. done.
Qed.

(** C5. Two snapshots with the same tree and the same
    deletion records, whatever their timestamps, merge into a snapshot
    with that same tree, provided the tree has distinct sibling ids, a
    [children] array at every node, and a root that is not tombstoned. *)
Theorem C5_merge_with_itself (now : string) (s1 s2 : MindmapData) :
  tree s1 = tree s2 →
  deletedNodes s1 = deletedNodes s2 →
  (∀ t, tree s1 = Some t →
        distinct_siblings t = true ∧ has_children_arrays t = true
        ∧ id t ∉ deletedIds_of s1 s2) →
  ∃ m, mergeMindmapData now s1 s2 = Ok m ∧ tree m = tree s1.
Proof.
  intros Htree _ Hwf.
  eexists. split; [apply mergeMindmapData_ok|]. simpl.
  destruct (newerData_cases s1 s2) as [[-> ->]|[-> ->]];
    rewrite <- Htree; destruct (tree s1) as [t|]; try done;
    destruct (Hwf t eq_refl) as (? & ? & ?); simpl;
    by apply mergeNodes_obj_self.
Qed.

(** The merge of two present trees with live roots. *)
Lemma mergeNodes_live (D : gset JsKey) (tn to : Node) :
  id tn ∉ D → id to ∉ D →
  ∃ tm, mergeNodes (Some tn) (Some to) D = Some tm
        ∧ mergeNodes_obj tn to D = Some tm.
Proof.
  intros Hn Ho. destruct (mergeNodes_obj_is_Some D to tn Hn Ho) as [tm Htm].
  by exists tm.
Qed.

(** What a merged node holds when the node is present at the same path on
    the newer and on the older side. *)
Lemma additions_preserved (D : gset JsKey) (tn to : Node) (p : list JsKey)
    (xn xo cn co : Node) :
  distinct_siblings tn = true → distinct_siblings to = true →
  id tn ∉ D → id to ∉ D → Forall (λ k, k ∉ D) p →
  node_at p tn = Some xn → node_at p to = Some xo →
  cn ∈ kids xn → co ∈ kids xo → id co ∉ D →
  ∃ tm xm, mergeNodes (Some tn) (Some to) D = Some tm
    ∧ node_at p tm = Some xm
    ∧ id cn ∈ child_ids (kids xm) ∧ id co ∈ child_ids (kids xm)
    ∧ (id cn ∉ child_ids (kids xo) → cn ∈ kids xm)
    ∧ (id co ∉ child_ids (kids xn) → co ∈ kids xm).
Proof.
  intros Hwfn Hwfo Hn Ho Hp Hxn Hxo Hcn Hco Hlive.
  destruct (mergeNodes_live D tn to Hn Ho) as (tm & Htm & Hobj).
  destruct (node_at_mergeNodes_obj tn p D to tm xn xo) as (xm & Hxm & Hmx);
    [done..|].
  exists tm, xm. split_and!; [done..| | | |];
    eapply (mergeNodes_obj_children D xo xn xm cn co);
    eauto using node_at_distinct_siblings.
Qed.

Lemma deletedIds_of_empty (cloudData localData : MindmapData) :
  default [] (deletedNodes cloudData) = [] →
  default [] (deletedNodes localData) = [] →
  allDeletedNodes cloudData localData = []
  ∧ deletedIds_of cloudData localData = ∅.
Proof.
  intros Hc Hl.
  assert (allDeletedNodes cloudData localData = []) as Hall
    by (unfold allDeletedNodes; by rewrite Hc, Hl).
  split; [done|]. unfold deletedIds_of. by rewrite Hall.
Qed.

(** C6.  Let a node be present at the same path [p] in both
    trees, the trees having distinct sibling ids, with neither root nor
    any id on the path tombstoned.  If the cloud version of the node has
    a child [X] and the local version a child [Y], neither tombstoned,
    then the merged tree has a node at [p] whose children carry the id of
    [X] and the id of [Y]; a child that the other side does not have is
    there unchanged.  This holds whichever snapshot is the newer one.
    In particular a cloud tree root→{A} merged with a later local tree
    root→{A,B}, without deletion records, gives the local tree
    root→{A,B} and no deletion record. *)
Theorem C6_additions_of_both_sides_are_kept :
  (∀ (now : string) (cloudData localData : MindmapData) (tc tl : Node)
     (p : list JsKey) (Nc Nl X Y : Node),
     tree cloudData = Some tc → tree localData = Some tl →
     distinct_siblings tc = true → distinct_siblings tl = true →
     id tc ∉ deletedIds_of cloudData localData →
     id tl ∉ deletedIds_of cloudData localData →
     Forall (λ k, k ∉ deletedIds_of cloudData localData) p →
     node_at p tc = Some Nc → node_at p tl = Some Nl →
     X ∈ kids Nc → Y ∈ kids Nl →
     id X ∉ deletedIds_of cloudData localData →
     id Y ∉ deletedIds_of cloudData localData →
     ∃ m tm Nm,
       mergeMindmapData now cloudData localData = Ok m
       ∧ tree m = Some tm ∧ node_at p tm = Some Nm
       ∧ id X ∈ child_ids (kids Nm) ∧ id Y ∈ child_ids (kids Nm)
       ∧ (id X ∉ child_ids (kids Nl) → X ∈ kids Nm)
       ∧ (id Y ∉ child_ids (kids Nc) → Y ∈ kids Nm))
  ∧ (∀ (now : string) (cloudData localData : MindmapData)
       (kr kr' ka : JsKey) (fr fr' fa fa' : list (string * string))
       (B : Node) (t1 t2 : Z),
       tree cloudData = Some (mkNode kr fr (Some [mkNode ka fa (Some [])])) →
       tree localData
       = Some (mkNode kr' fr' (Some [mkNode ka fa' (Some []); B])) →
       id B ≠ ka →
       default [] (deletedNodes cloudData) = [] →
       default [] (deletedNodes localData) = [] →
       Date_getTime (timestamp cloudData) = Some t1 →
       Date_getTime (timestamp localData) = Some t2 →
       (t1 < t2)%Z →
       ∃ m, mergeMindmapData now cloudData localData = Ok m
            ∧ tree m = tree localData
            ∧ deletedNodes m = Some []).
Proof.
  split.
  - intros now cloudData localData tc tl p Nc Nl X Y
      Htc Htl Hwfc Hwfl Hc Hl Hp HNc HNl HX HY HXlive HYlive.
    set (D := deletedIds_of cloudData localData) in *.
    destruct (newerData_cases cloudData localData) as [[Hn Ho]|[Hn Ho]].
    + destruct (additions_preserved D tl tc p Nl Nc Y X)
        as (tm & Nm & Htm & HNm & HidY & HidX & HYin & HXin); [done..|].
      eexists _, tm, Nm. split; [apply mergeMindmapData_ok|]. simpl.
      rewrite Hn, Ho, Htc, Htl. done.
    + destruct (additions_preserved D tc tl p Nc Nl X Y)
        as (tm & Nm & Htm & HNm & HidX & HidY & HXin & HYin); [done..|].
      eexists _, tm, Nm. split; [apply mergeMindmapData_ok|]. simpl.
      rewrite Hn, Ho, Htc, Htl. done.
  - intros now cloudData localData kr kr' ka fr fr' fa fa' B t1 t2
      Htc Htl HB Hdc Hdl Ht1 Ht2 Hlt.
    destruct (deletedIds_of_empty cloudData localData Hdc Hdl) as [Hall HD].
    eexists. split; [apply mergeMindmapData_ok|]. simpl.
    rewrite Hall, HD. split; [|done].
    unfold newerData, olderData, localTime, cloudTime.
    rewrite Ht1, Ht2, js_gt_lt by done. rewrite Htc, Htl.
    unfold mergeNodes.
    rewrite mergeNodes_obj_spec; simpl; [|set_solver..| |].
    + do 3 f_equal. unfold merged_children, merged_child, child_by_id; simpl.
      destruct (decide (ka ∈ (∅ : gset JsKey))) as [?|_]; [set_solver|].
      destruct (decide (id B ∈ (∅ : gset JsKey))) as [?|_]; [set_solver|].
      destruct (decide (ka = ka)) as [_|?]; [|done].
      destruct (decide (ka = id B)) as [?|_]; [done|]. simpl.
      destruct (decide (ka ∈ (∅ : gset JsKey))) as [?|_]; [set_solver|].
      unfold kids; simpl.
      rewrite filter_cons_False, filter_nil; [done|].
      intros [_ Hnot]. apply Hnot. left.
    + apply NoDup_cons. split; [|apply NoDup_singleton].
      by intros ->%list_elem_of_singleton.
    + apply NoDup_singleton.
Qed.

(** C7. For two snapshots whose trees have distinct sibling ids (as
    the data-model invariant gives) and whose roots are not tombstoned,
    every id occurring in the newer tree occurs in the merged tree; an
    id of either input that the merged tree lacks occurs in the older
    tree only; and a tombstoned child of the older root that the newer
    root does not have is not appended. *)
Theorem C7_newer_side_is_never_pruned (now : string)
    (cloudData localData : MindmapData) :
  (∀ t, tree cloudData = Some t →
        distinct_siblings t = true
        ∧ id t ∉ deletedIds_of cloudData localData) →
  (∀ t, tree localData = Some t →
        distinct_siblings t = true
        ∧ id t ∉ deletedIds_of cloudData localData) →
  ∃ m, mergeMindmapData now cloudData localData = Ok m
    ∧ (∀ k, k ∈ ids_of_tree (tree (newerData cloudData localData)) →
            k ∈ ids_of_tree (tree m))
    ∧ (∀ k, k ∈ ids_of_tree (tree cloudData)
            ∨ k ∈ ids_of_tree (tree localData) →
            k ∉ ids_of_tree (tree m) →
            k ∈ ids_of_tree (tree (olderData cloudData localData))
            ∧ k ∉ ids_of_tree (tree (newerData cloudData localData)))
    ∧ (∀ tn to tm c,
          tree (newerData cloudData localData) = Some tn →
          tree (olderData cloudData localData) = Some to →
          tree m = Some tm →
          c ∈ kids to → id c ∈ deletedIds_of cloudData localData →
          id c ∉ child_ids (kids tn) → id c ∉ child_ids (kids tm)).
Proof.
  intros Hcloud Hlocal.
  set (D := deletedIds_of cloudData localData) in *.
  assert (∀ t, tree (newerData cloudData localData) = Some t →
               distinct_siblings t = true ∧ id t ∉ D) as Hnewer.
  { destruct (newerData_cases cloudData localData) as [[-> _]|[-> _]]; done. }
  assert (∀ t, tree (olderData cloudData localData) = Some t →
               distinct_siblings t = true ∧ id t ∉ D) as Holder.
  { destruct (newerData_cases cloudData localData) as [[_ ->]|[_ ->]]; done. }
  assert (∀ k, k ∈ ids_of_tree (tree (newerData cloudData localData)) →
            k ∈ ids_of_tree
                  (mergeNodes (tree (newerData cloudData localData))
                     (tree (olderData cloudData localData)) D)) as Hkept.
  { intros k Hk.
    destruct (tree (newerData cloudData localData)) as [tn|] eqn:Htn;
      [|by apply elem_of_nil in Hk].
    destruct (tree (olderData cloudData localData)) as [to|] eqn:Hto;
      [|done].
    destruct (Hnewer tn eq_refl) as [Hwfn Hn].
    destruct (Holder to eq_refl) as [Hwfo Ho].
    destruct (mergeNodes_live D tn to Hn Ho) as (tm & -> & Hobj).
    simpl in *.
    destruct (tree_ids_node_at tn k Hwfn Hk) as (p & x & Hx & <-).
    destruct (node_at_merge_image D p tn tm x) as (x' & Hx' & Him);
      [right; eauto|done..|].
    apply merge_image_payload in Him as [<- _].
    by eapply node_at_tree_ids. }
  eexists. split; [apply mergeMindmapData_ok|]. simpl. split_and!.
  - done.
  - intros k Hin Hout.
    assert (k ∉ ids_of_tree (tree (newerData cloudData localData))) as Hnot
      by (intros Hk; by apply Hout, Hkept).
    split; [|done].
    destruct (newerData_cases cloudData localData) as [[Hn Ho]|[Hn Ho]];
      rewrite Hn in Hnot; rewrite Ho; naive_solver.
  - intros tn to tm c Htn Hto Htm Hc Hdel Hnew.
    rewrite Htn, Hto in Htm. simpl in Htm.
    destruct (Hnewer tn Htn) as [Hwfn Hn].
    destruct (Holder to Hto) as [Hwfo Ho].
    rewrite (mergeNodes_obj_kids D to tn tm) by done.
    unfold merged_children. rewrite child_ids_app, child_ids_merged.
    intros [Hin|Hin]%elem_of_app; [done|].
    unfold child_ids in Hin.
    apply list_elem_of_fmap in Hin as (c' & Heq & Hc').
    apply list_elem_of_filter in Hc' as [[Hlive _] _].
    apply Hlive. by rewrite <- Heq.
Qed.
End Claims.

(** ** More on the tree merger *)

Section MergeOrder.
Implicit Types (D : gset JsKey) (n o c : Node) (l : list Node) (k : JsKey).

Lemma findIndex_Some k l i :
  findIndex k l = Some i → ∃ c, l !! i = Some c ∧ id c = k.
Proof.
  unfold findIndex. intros ([j c] & Hfind & ->)%fmap_Some.
  apply list_find_Some in Hfind as (Hj & Hid & _). eauto.
Qed.

Lemma child_ids_insert_same l i c c' :
  l !! i = Some c → id c' = id c → child_ids (<[i := c']> l) = child_ids l.
Proof.
  intros Hi Hid. unfold child_ids. rewrite list_fmap_insert, Hid.
  apply list_insert_id. by rewrite list_lookup_fmap, Hi.
Qed.

(** A turn of the loop either leaves the ids of [mergedChildren] as they
    are or appends the id of a live child the newer side does not have. *)
Lemma merge_step_child_ids D nl acc o :
  child_ids (merge_step D nl acc o)
  = child_ids acc
    ++ child_ids (filter (λ o, (id o ∉ D) ∧ (id o ∉ child_ids nl)) [o]).
Proof.
  unfold merge_step. destruct (decide (id o ∈ D)) as [Hdel|Hlive].
  { rewrite filter_cons_False, filter_nil by naive_solver.
    by rewrite app_nil_r. }
  destruct (childMap nl !! id o) as [nc|] eqn:Hmap.
  - apply childMap_Some in Hmap as [Hnc Hid].
    assert (id o ∈ child_ids nl) as Hin.
    { rewrite <- Hid. unfold child_ids. apply list_elem_of_fmap. eauto. }
    rewrite filter_cons_False, filter_nil by naive_solver.
    rewrite app_nil_r.
    destruct (mergeNodes_obj nc o D) as [m|] eqn:Hm; [|done].
    destruct (findIndex (id o) acc) as [i|] eqn:Hi; [|done].
    apply findIndex_Some in Hi as (c & Hc & Hcid).
    apply mergeNodes_obj_id in Hm as [Hmid _].
    apply (child_ids_insert_same _ _ c); [done|congruence].
  - apply childMap_None in Hmap.
    rewrite filter_cons_True, filter_nil by done.
    apply child_ids_app.
Qed.

Lemma merge_loop_child_ids D nl ol acc :
  child_ids (foldl (merge_step D nl) acc ol)
  = child_ids acc
    ++ child_ids (filter (λ o, (id o ∉ D) ∧ (id o ∉ child_ids nl)) ol).
Proof.
  revert acc. induction ol as [|o ol IH]; intros acc.
  - rewrite filter_nil. simpl. by rewrite app_nil_r.
  - change (foldl (merge_step D nl) acc (o :: ol))
      with (foldl (merge_step D nl) (merge_step D nl acc o) ol).
    rewrite IH, merge_step_child_ids.
    change (o :: ol) with ([o] ++ ol).
    rewrite (filter_app _ [o] ol), child_ids_app, app_assoc. done.
Qed.

(** An entry whose id the newer side does not have is never replaced. *)
Lemma merge_step_keeps D nl acc o c :
  c ∈ acc → id c ∉ child_ids nl → c ∈ merge_step D nl acc o.
Proof.
  intros Hc Hfresh. unfold merge_step.
  destruct (decide (id o ∈ D)); [done|].
  destruct (childMap nl !! id o) as [nc|] eqn:Hmap;
    [|apply elem_of_app; by left].
  apply childMap_Some in Hmap as [Hnc Hid].
  destruct (mergeNodes_obj nc o D) as [m|]; [|done].
  destruct (findIndex (id o) acc) as [i|] eqn:Hi; [|done].
  apply findIndex_Some in Hi as (c' & Hc' & Hcid).
  apply list_elem_of_lookup in Hc as [j Hj].
  apply list_elem_of_lookup. exists j.
  rewrite list_lookup_insert_ne; [done|].
  intros ->. apply Hfresh.
  assert (c = c') as -> by congruence.
  rewrite Hcid, <- Hid. unfold child_ids. apply list_elem_of_fmap. eauto.
Qed.

Lemma merge_loop_keeps D nl ol acc c :
  c ∈ acc → id c ∉ child_ids nl → c ∈ foldl (merge_step D nl) acc ol.
Proof.
  revert acc. induction ol as [|o ol IH]; intros acc Hc Hfresh; [done|].
  simpl. apply IH; [|done]. by apply merge_step_keeps.
Qed.

Lemma merge_loop_appends D nl ol acc o :
  o ∈ ol → id o ∉ D → id o ∉ child_ids nl →
  o ∈ foldl (merge_step D nl) acc ol.
Proof.
  revert acc. induction ol as [|o' ol IH]; intros acc Ho Hlive Hfresh.
  - by apply elem_of_nil in Ho.
  - simpl. apply elem_of_cons in Ho as [<-|Ho]; [|by apply IH].
    apply merge_loop_keeps; [|done].
    unfold merge_step. rewrite decide_False by done.
    apply childMap_None in Hfresh. rewrite Hfresh.
    apply elem_of_app. right. left.
Qed.

Lemma list_elem_of_insert_inv {A} (l : list A) i x y :
  y ∈ <[i := x]> l → y = x ∨ y ∈ l.
Proof.
  intros [j Hj]%list_elem_of_lookup.
  destruct (decide (i = j)) as [->|Hne].
  - destruct (decide (j < length l)) as [Hlt|Hge].
    + rewrite list_lookup_insert_eq in Hj by done. left. congruence.
    + rewrite list_insert_ge in Hj by lia. right.
      by eapply list_elem_of_lookup_2.
  - rewrite list_lookup_insert_ne in Hj by done. right.
    by eapply list_elem_of_lookup_2.
Qed.

(** ids below a sequence of children *)
Lemma tree_ids_kids n k :
  k ∈ tree_ids n ↔ k = id n ∨ ∃ c, c ∈ kids n ∧ k ∈ tree_ids c.
Proof.
  split; [apply tree_ids_inv|].
  intros [->|(c & Hc & Hk)]; [apply tree_ids_root|].
  by eapply tree_ids_child.
Qed.

(** The merge never invents a node: every id of the result occurs in one
    of the two trees. *)
Lemma mergeNodes_obj_ids_from_inputs D o :
  ∀ n m k, mergeNodes_obj n o D = Some m → k ∈ tree_ids m →
           k ∈ tree_ids n ∨ k ∈ tree_ids o.
Proof.
  induction o as [ko fo|ko fo ol IH] using Node_nested_ind;
    intros n m k Hm Hk.
  - rewrite mergeNodes_obj_eq in Hm. repeat case_decide; try done.
    injection Hm as <-. left.
    apply tree_ids_kids. apply tree_ids_kids in Hk. done.
  - rewrite mergeNodes_obj_eq in Hm. repeat case_decide; try done.
    injection Hm as <-.
    apply tree_ids_kids in Hk as [->|(c & Hc & Hk)];
      [left; simpl; apply tree_ids_root|].
    change (c ∈ foldl (merge_step D (kids n)) (kids n) ol) in Hc.
    assert (∀ ol' acc,
      (∀ o', o' ∈ ol' → o' ∈ ol) →
      (∀ c, c ∈ acc → ∀ k, k ∈ tree_ids c →
         (∃ c', c' ∈ kids n ∧ k ∈ tree_ids c')
         ∨ (∃ c', c' ∈ ol ∧ k ∈ tree_ids c')) →
      ∀ c, c ∈ foldl (merge_step D (kids n)) acc ol' → ∀ k, k ∈ tree_ids c →
        (∃ c', c' ∈ kids n ∧ k ∈ tree_ids c')
        ∨ (∃ c', c' ∈ ol ∧ k ∈ tree_ids c'))
      as Hloop.
    { clear c Hc k Hk.
      induction ol' as [|o' ol' IHl]; intros acc Hsub Hacc; [exact Hacc|].
      simpl. apply IHl; [intros; apply Hsub; by right|].
      intros c Hc k Hk. unfold merge_step in Hc.
      destruct (decide (id o' ∈ D)); [by eapply Hacc|].
      destruct (childMap (kids n) !! id o') as [nc|] eqn:Hmap.
      - apply childMap_Some in Hmap as [Hnc _].
        destruct (mergeNodes_obj nc o' D) as [mc|] eqn:Hmc; [|by eapply Hacc].
        destruct (findIndex (id o') acc); [|by eapply Hacc].
        apply list_elem_of_insert_inv in Hc as [->|Hc]; [|by eapply Hacc].
        rewrite Forall_forall in IH.
        destruct (IH o' (Hsub o' ltac:(left)) nc mc k Hmc Hk); [left|right]; eauto.
        exists o'. split; [apply Hsub; left|done].
      - apply elem_of_app in Hc as [Hc|Hc]; [by eapply Hacc|].
        apply list_elem_of_singleton in Hc as ->. right. exists o'.
        split; [apply Hsub; left|done]. }
    destruct (Hloop ol (kids n) ltac:(done) ltac:(eauto) c Hc k Hk) as [(c' & Hc' & Hk')|(c' & Hc' & Hk')].
    + left. by eapply tree_ids_child.
    + right. apply tree_ids_kids. right. eauto.
Qed.

(** With distinct sibling ids and no tombstone on the older tree, every
    node below the older root is kept by the merge. *)
Lemma mergeNodes_obj_keeps_older D o :
  ∀ n m, distinct_siblings n = true → distinct_siblings o = true →
         (∀ k, k ∈ tree_ids o → k ∉ D) →
         mergeNodes_obj n o D = Some m →
         ∀ c k, c ∈ kids o → k ∈ tree_ids c → k ∈ tree_ids m.
Proof.
  induction o as [ko fo|ko fo ol IH] using Node_nested_ind;
    intros n m Hwf Hwfo Hlive Hm c k Hc Hk.
  - by apply elem_of_nil in Hc.
  - pose proof (distinct_siblings_kids _ Hwf) as [Hnd Hall].
    pose proof (distinct_siblings_kids _ Hwfo) as [Hndo Hallo].
    pose proof (mergeNodes_obj_kids _ _ _ _ Hwf Hwfo Hm) as Hkids.
    change (kids {| id := ko; fields := fo; children := Some ol |})
      with ol in *.
    assert (id c ∉ D) as Hclive.
    { apply Hlive. eapply tree_ids_child; [exact Hc|apply tree_ids_root]. }
    destruct (decide (id c ∈ child_ids (kids n))) as [Hin|Hnew].
    + unfold child_ids in Hin. apply list_elem_of_fmap in Hin as (nc & Hid & Hnc).
      destruct (mergeNodes_obj_is_Some D c nc) as [cm Hcm]; [congruence|done|].
      assert (merged_child D ol nc = cm) as Hmc.
      { unfold merged_child. rewrite decide_False by congruence.
        rewrite <- Hid, child_by_id_NoDup by done. by rewrite Hcm. }
      assert (cm ∈ kids m) as Hcm_in.
      { rewrite Hkids. unfold merged_children. apply elem_of_app. left.
        apply list_elem_of_fmap. exists nc. by rewrite Hmc. }
      apply (tree_ids_child m cm k Hcm_in).
      apply tree_ids_inv in Hk as [->|(c' & Hc' & Hk)].
      * apply mergeNodes_obj_id in Hcm as [Hcmid _].
        replace (id c) with (id cm) by congruence. apply tree_ids_root.
      * rewrite Forall_forall in IH.
        apply (IH c Hc nc cm (Hall nc Hnc) (Hallo c Hc)) with (c := c');
          [|done..].
        intros k' Hk'. apply Hlive. by eapply tree_ids_child.
    + apply (tree_ids_child m c k); [|done].
      rewrite Hkids. unfold merged_children. apply elem_of_app. right.
      by apply list_elem_of_filter.
Qed.
End MergeOrder.

(** ** More on the reconciler *)

(** X1. The children of a merged node are, in this order, the children of
    the newer node (each under its own id) and then those children of the
    older node whose id is neither tombstoned nor carried by a child of the
    newer node, in the order of the older node. *)
Theorem merged_children_keep_newer_order (D : gset JsKey) (n o m : Node) :
  mergeNodes (Some n) (Some o) D = Some m →
  child_ids (kids m)
  = child_ids (kids n)
    ++ child_ids (filter (λ c, (id c ∉ D) ∧ (id c ∉ child_ids (kids n)))
                   (kids o)).
Proof.
  simpl. rewrite mergeNodes_obj_eq. repeat case_decide; try done.
  intros [= <-]. apply merge_loop_child_ids.
Qed.

(** X2. The merge never invents a node: every id in the merged tree
    occurs in the newer or in the older tree. *)
Theorem merge_never_invents_a_node (D : gset JsKey) (tn to : option Node)
    (m : Node) (k : JsKey) :
  mergeNodes tn to D = Some m → k ∈ tree_ids m →
  k ∈ ids_of_tree tn ∨ k ∈ ids_of_tree to.
Proof.
  destruct tn as [n|], to as [o|]; simpl.
  - apply mergeNodes_obj_ids_from_inputs.
  - intros [= <-]. by left.
  - intros [= <-]. by right.
  - done.
Qed.

(** X3. A child of the older node that is not tombstoned and whose id the
    newer node does not have among its children is appended as it is, with
    its whole subtree: every id below it, tombstoned or not, is in the
    merged tree. *)
Theorem older_only_branch_is_appended_whole (D : gset JsKey) (n o m c : Node) :
  mergeNodes (Some n) (Some o) D = Some m →
  c ∈ kids o → id c ∉ D → id c ∉ child_ids (kids n) →
  c ∈ kids m ∧ ∀ k, k ∈ tree_ids c → k ∈ tree_ids m.
Proof.
  simpl. rewrite mergeNodes_obj_eq. repeat case_decide; try done.
  intros [= <-] Hc Hlive Hnew.
  assert (c ∈ kids {| id := id n; fields := fields n;
                      children := Some (foldl (merge_step D (kids n))
                                          (kids n) (kids o)) |}) as Hin
    by by apply merge_loop_appends.
  split; [done|]. intros k Hk. by eapply tree_ids_child.
Qed.

Lemma foldl_Set_add_fresh {A} `{EqDecision A} (l s : list A) :
  NoDup (s ++ l) → foldl Set_add s l = s ++ l.
Proof.
  revert s. induction l as [|a l IH]; intros s Hnd; simpl.
  - by rewrite app_nil_r.
  - assert (a ∉ s) as Ha.
    { apply NoDup_app in Hnd as (_ & Hdisj & _). intros Hin.
      apply (Hdisj a Hin). left. }
    unfold Set_add at 2. rewrite decide_False by done.
    rewrite IH; rewrite <- app_assoc; done.
Qed.

Lemma foldl_Set_add_extends {A} `{EqDecision A} (l s : list A) :
  ∃ added, foldl Set_add s l = s ++ added.
Proof.
  revert s. induction l as [|a l IH]; intros s; simpl.
  - exists []. by rewrite app_nil_r.
  - unfold Set_add at 2. case_decide; [apply IH|].
    destruct (IH (s ++ [a])) as [added ->].
    exists (a :: added). by rewrite <- app_assoc.
Qed.

Section ReconcilerMore.
Context `{Runtime}.

(** X4. Without an applicable tombstone the merge is a union: when both
    trees are present with the same root id and distinct sibling ids, and
    no id of either tree is in the deletion set, the ids of the merged tree
    are exactly the ids of the two trees. *)
Theorem merge_without_tombstones_is_a_union (now : string)
    (cloudData localData : MindmapData) (tc tl : Node) :
  tree cloudData = Some tc → tree localData = Some tl →
  id tc = id tl →
  distinct_siblings tc = true → distinct_siblings tl = true →
  (∀ k, k ∈ tree_ids tc ∨ k ∈ tree_ids tl →
        k ∉ deletedIds_of cloudData localData) →
  ∃ m tm, mergeMindmapData now cloudData localData = Ok m
          ∧ tree m = Some tm
          ∧ ∀ k, k ∈ tree_ids tm ↔ k ∈ tree_ids tc ∨ k ∈ tree_ids tl.
Proof.
  intros Htc Htl Hroot Hwfc Hwfl Hlive.
  set (D := deletedIds_of cloudData localData) in *.
  assert (∀ tn to, id tn = id to →
            distinct_siblings tn = true → distinct_siblings to = true →
            (∀ k, k ∈ tree_ids tn ∨ k ∈ tree_ids to → k ∉ D) →
            ∃ tm, mergeNodes (Some tn) (Some to) D = Some tm
                  ∧ ∀ k, k ∈ tree_ids tm
                         ↔ k ∈ tree_ids tn ∨ k ∈ tree_ids to) as Hunion.
  { intros tn to Hid Hwfn Hwfo Hl.
    destruct (mergeNodes_live D tn to) as (tm & Htm & Hobj);
      [apply Hl; left; apply tree_ids_root
      |apply Hl; right; apply tree_ids_root|].
    exists tm. split; [done|]. intros k. split.
    - intros Hk. by apply (mergeNodes_obj_ids_from_inputs D to tn tm k Hobj).
    - intros [Hk|Hk].
      + destruct (tree_ids_node_at tn k Hwfn Hk) as (p & x & Hx & <-).
        destruct (node_at_merge_image D p tn tm x) as (x' & Hx' & Him);
          [right; eauto|done..|].
        apply merge_image_payload in Him as [<- _].
        by eapply node_at_tree_ids.
      + apply tree_ids_inv in Hk as [->|(c & Hc & Hk)].
        * rewrite <- Hid. apply mergeNodes_obj_id in Hobj as [<- _].
          apply tree_ids_root.
        * eapply (mergeNodes_obj_keeps_older D to tn tm); eauto. }
  destruct (newerData_cases cloudData localData) as [[Hn Ho]|[Hn Ho]].
  - destruct (Hunion tl tc) as (tm & Htm & Hids);
      [done..|naive_solver|].
    eexists _, tm. split; [apply mergeMindmapData_ok|]. simpl.
    rewrite Hn, Ho, Htc, Htl. split; [done|]. intros k. rewrite Hids.
    naive_solver.
  - destruct (Hunion tc tl) as (tm & Htm & Hids); [done..|].
    eexists _, tm. split; [apply mergeMindmapData_ok|]. simpl.
    rewrite Hn, Ho, Htc, Htl. done.
Qed.

(** X5. The merged snapshot has no tree exactly when neither input has
    one, or both have one and a record names one of the two roots.  When
    only one input has a tree, the merged tree is that tree as it is,
    whatever the records and the timestamps. *)
Theorem merged_tree_is_absent_iff (now : string)
    (cloudData localData : MindmapData) :
  ∃ m, mergeMindmapData now cloudData localData = Ok m
    ∧ (tree m = None
       ↔ (tree cloudData = None ∧ tree localData = None)
         ∨ ∃ tc tl, tree cloudData = Some tc ∧ tree localData = Some tl
                    ∧ (id tc ∈ deletedIds_of cloudData localData
                       ∨ id tl ∈ deletedIds_of cloudData localData))
    ∧ (tree cloudData = None → tree m = tree localData)
    ∧ (tree localData = None → tree m = tree cloudData).
Proof.
  eexists. split; [apply mergeMindmapData_ok|]. simpl.
  set (D := deletedIds_of cloudData localData).
  destruct (newerData_cases cloudData localData) as [[-> ->]|[-> ->]];
    destruct (tree cloudData) as [tc|], (tree localData) as [tl|]; simpl;
    try rewrite mergeNodes_obj_eq;
    (split_and!; [|done..]);
    repeat case_decide; naive_solver.
Qed.

(** X6. The deletion set does not depend on which snapshot is passed as
    cloud and which as local. *)
Theorem deletion_set_is_symmetric (a b : MindmapData) :
  deletedIds_of a b = deletedIds_of b a.
Proof.
  apply set_eq. intros k. rewrite !elem_of_deletedIds_of. naive_solver.
Qed.

(** X7. Away from ties the reconciliation does not depend on the order of
    its arguments: when the two timestamps parse to different instants,
    exchanging cloud and local gives the same tree, the same focus and view
    offset and the same timestamp, and the same deletion records up to
    their order. *)
Theorem merge_is_symmetric_off_ties (now : string) (a b : MindmapData)
    (ta tb : Z) :
  Date_getTime (timestamp a) = Some ta →
  Date_getTime (timestamp b) = Some tb →
  ta ≠ tb →
  ∃ m m' rs rs',
    mergeMindmapData now a b = Ok m ∧ mergeMindmapData now b a = Ok m'
    ∧ tree m = tree m'
    ∧ currentCenterId m = currentCenterId m'
    ∧ viewOffset m = viewOffset m'
    ∧ timestamp m = timestamp m'
    ∧ deletedNodes m = Some rs ∧ deletedNodes m' = Some rs'
    ∧ ∀ r, r ∈ rs ↔ r ∈ rs'.
Proof.
  intros Ha Hb Hne.
  eexists _, _, _, _.
  split; [apply mergeMindmapData_ok|]. split; [apply mergeMindmapData_ok|].
  simpl.
  assert (deletedIds_of b a = deletedIds_of a b) as ->
    by (apply set_eq; intros k; rewrite !elem_of_deletedIds_of; naive_solver).
  assert (newerData a b = newerData b a ∧ olderData a b = olderData b a)
    as [-> ->].
  { unfold newerData, olderData, localTime, cloudTime. rewrite Ha, Hb.
    destruct (decide (ta < tb)%Z).
    - rewrite (js_gt_lt tb ta), (js_gt_ge ta tb) by lia. done.
    - rewrite (js_gt_ge tb ta), (js_gt_lt ta tb) by lia. done. }
  split_and!; try done.
  intros r. rewrite !allDeletedNodes_spec. naive_solver.
Qed.

(** X8. The deletion records already stored keep their place: when the
    cloud records are duplicate-free (as every merged snapshot's are), the
    merged records are the cloud records, in their order, followed by the
    local records the cloud did not have, each once. *)
Theorem stored_records_keep_their_order (now : string)
    (cloudData localData : MindmapData) :
  NoDup (default [] (deletedNodes cloudData)) →
  ∃ m added,
    mergeMindmapData now cloudData localData = Ok m
    ∧ deletedNodes m = Some (default [] (deletedNodes cloudData) ++ added)
    ∧ NoDup added
    ∧ ∀ r, r ∈ added
           ↔ r ∈ default [] (deletedNodes localData)
             ∧ r ∉ default [] (deletedNodes cloudData).
Proof.
  intros Hnd.
  set (cs := default [] (deletedNodes cloudData)) in *.
  set (ls := default [] (deletedNodes localData)).
  assert (allDeletedNodes cloudData localData = foldl Set_add cs (Set_from ls))
    as Hall.
  { unfold allDeletedNodes. fold cs ls.
    assert (Set_from cs = cs) as ->
      by (unfold Set_from; by rewrite foldl_Set_add_fresh).
    unfold Set_from at 1. rewrite foldl_app.
    by rewrite (foldl_Set_add_fresh cs []). }
  destruct (foldl_Set_add_extends (Set_from ls) cs) as [added Hadded].
  assert (NoDup (cs ++ added)) as Hnd'
    by (rewrite <- Hadded; by apply foldl_Set_add_NoDup).
  eexists _, added. split; [apply mergeMindmapData_ok|]. simpl.
  rewrite Hall, Hadded. split_and!; [done| |].
  - by apply NoDup_app in Hnd' as (_ & _ & ?).
  - intros r. apply NoDup_app in Hnd' as (_ & Hdisj & _).
    pose proof (foldl_Set_add_spec (Set_from ls) cs r) as Hspec.
    rewrite Hadded, elem_of_app, Set_from_spec in Hspec.
    split.
    + intros Hr. split; [|intros Hc; by apply (Hdisj r Hc)].
      destruct (proj1 Hspec (or_intror Hr)) as [Hc|?]; [|done].
      by destruct (Hdisj r Hc).
    + intros [Hl Hc]. destruct (proj2 Hspec (or_intror Hl)); done.
Qed.

(** X9. Tombstones survive later merges: every deletion record of two
    merged snapshots, and every id read from them, is again in the
    records and in the deletion set when the merged snapshot is merged
    with any third snapshot, on either side. *)
Theorem tombstones_survive_later_merges (now now' : string)
    (a b other : MindmapData) :
  ∃ m m1 m2 rs1 rs2,
    mergeMindmapData now a b = Ok m
    ∧ mergeMindmapData now' m other = Ok m1
    ∧ mergeMindmapData now' other m = Ok m2
    ∧ deletedNodes m1 = Some rs1 ∧ deletedNodes m2 = Some rs2
    ∧ (∀ r, r ∈ default [] (deletedNodes a) ∨ r ∈ default [] (deletedNodes b) →
            r ∈ rs1 ∧ r ∈ rs2)
    ∧ deletedIds_of a b ⊆ deletedIds_of m other
    ∧ deletedIds_of a b ⊆ deletedIds_of other m.
Proof.
  eexists _, _, _, _, _.
  split; [apply mergeMindmapData_ok|].
  split; [apply mergeMindmapData_ok|].
  split; [apply mergeMindmapData_ok|]. simpl.
  split_and!; try done.
  - intros r Hr. rewrite !allDeletedNodes_spec. simpl.
    rewrite allDeletedNodes_spec. naive_solver.
  - intros k. rewrite !elem_of_deletedIds_of. simpl.
    intros (r & Hr & Hid). exists r. split; [|done]. left.
    by apply allDeletedNodes_spec.
  - intros k. rewrite !elem_of_deletedIds_of. simpl.
    intros (r & Hr & Hid). exists r. split; [|done]. right.
    by apply allDeletedNodes_spec.
Qed.
End ReconcilerMore.

(** ** More on the sync endpoint *)

Ltac run_handleSync :=
  unfold handleSync, task_try_catch, mbind, mret, Task_bind, Task_ret,
    task_of_exc, KV_get, KV_put, Date_now, get_localData.

Section EndpointMore.
Context `{Runtime}.

Lemma World_eta (w : World) :
  {| MINDMAP_KV := MINDMAP_KV w; clock := clock w |} = w.
Proof. by destruct w. Qed.

(** Every run of the sync handler, case by case. *)
Lemma handleSync_run (req : Request) (cors : list (string * string)) (w : World) :
  ∃ resp w', handleSync req cors w = (Ok resp, w')
    ∧ headers resp = cors ++ [("Content-Type", "application/json")]
    ∧ ( (method req = "GET" ∧ w' = w ∧ status resp = 200%Z
         ∧ body resp = {| success := true;
                          data := Some (MINDMAP_KV w !! "mindmap_data");
                          error := None; stack := None |})
      ∨ (method req ≠ "GET" ∧ method req = "POST"
         ∧ ∃ d, w' = {| MINDMAP_KV := <["mindmap_data" := d]> (MINDMAP_KV w);
                        clock := clock w |}
                ∧ status resp = 200%Z
                ∧ body resp = {| success := true; data := Some (Some d);
                                 error := None; stack := None |}
                ∧ ( (MINDMAP_KV w !! "mindmap_data" = None
                     ∧ json req = Ok (BodyValue (Some d)))
                  ∨ (MINDMAP_KV w !! "mindmap_data" = Some d
                     ∧ json req = Ok (BodyValue None))
                  ∨ (∃ c l, MINDMAP_KV w !! "mindmap_data" = Some c
                            ∧ json req = Ok (BodyValue (Some l))
                            ∧ mergeMindmapData (clock w) c l = Ok d)))
      ∨ (method req ≠ "GET" ∧ method req = "POST" ∧ w' = w
         ∧ status resp = 400%Z
         ∧ MINDMAP_KV w !! "mindmap_data" = None
         ∧ json req = Ok (BodyValue None)
         ∧ body resp = {| success := false; data := None;
                          error := Some "No data provided"; stack := None |})
      ∨ (method req ≠ "GET" ∧ method req = "POST" ∧ w' = w
         ∧ status resp = 500%Z
         ∧ ∃ e, (json req = Throw e
                 ∨ (json req = Ok BodyNull ∧ get_localData BodyNull = Throw e))
                ∧ body resp = {| success := false; data := None;
                                 error := Some (String_of_error e);
                                 stack := Some (error_stack e) |})
      ∨ (method req ≠ "GET" ∧ method req ≠ "POST" ∧ w' = w
         ∧ status resp = 405%Z
         ∧ body resp = {| success := false; data := None;
                          error := Some "Method not allowed";
                          stack := None |}) ).
Proof.
  run_handleSync.
  destruct (decide (method req = "GET")) as [Hget|Hget].
  { eexists _, _. split; [reflexivity|]. split; [done|]. left. done. }
  destruct (decide (method req = "POST")) as [Hpost|Hpost].
  2:{ eexists _, _. split; [reflexivity|]. split; [done|].
      do 4 right. done. }
  destruct (json req) as [e|[|[l|]]] eqn:Hjson; simpl.
  - eexists _, _. split; [reflexivity|]. split; [done|].
    do 3 right. left. split_and!; try done. exists e. split; [by left|done].
  - eexists _, _. split; [reflexivity|]. split; [done|].
    do 3 right. left. split_and!; try done. eexists. split; [by right|done].
  - destruct (MINDMAP_KV w !! "mindmap_data") as [c|] eqn:Hkv; simpl.
    + rewrite mergeMindmapData_ok. simpl.
      eexists _, _. split; [reflexivity|]. split; [done|].
      right. left. split_and!; try done. eexists. split_and!; try done.
      right. right. exists c, l. split_and!; try done.
      apply mergeMindmapData_ok.
    + eexists _, _. split; [reflexivity|]. split; [done|].
      right. left. split_and!; try done. eexists. split_and!; try done.
      by left.
  - destruct (MINDMAP_KV w !! "mindmap_data") as [c|] eqn:Hkv; simpl.
    + eexists _, _. split; [reflexivity|]. split; [done|].
      right. left. split_and!; try done. eexists. split_and!; try done.
      right. by left.
    + eexists _, _. split; [reflexivity|]. split; [done|].
      do 2 right. left. done.
Qed.

(** X10. The sync handler answers every request: no exception escapes
    it, the status is 200, 400, 405 or 500, the answer carries the CORS
    headers followed by the JSON content type, and [success] is true
    exactly for a 200. *)
Theorem handleSync_always_answers (req : Request)
    (cors : list (string * string)) (w : World) :
  ∃ resp w', handleSync req cors w = (Ok resp, w')
    ∧ status resp ∈ [200; 400; 405; 500]%Z
    ∧ headers resp = cors ++ [("Content-Type", "application/json")]
    ∧ (success (body resp) = true ↔ status resp = 200%Z).
Proof.
  destruct (handleSync_run req cors w) as (resp & w' & Hrun & Hh & Hcases).
  exists resp, w'. split; [done|].
  destruct Hcases as [(_ & _ & Hst & Hb)
      |[(_ & _ & d & _ & Hst & Hb & _)
      |[(_ & _ & _ & Hst & _ & _ & Hb)
      |[(_ & _ & _ & Hst & e & _ & Hb)
      |(_ & _ & _ & Hst & Hb)]]]]; rewrite Hst, Hb; simpl;
    (split_and!; [set_solver|done|done]).
Qed.

(** X11. What the sync handler leaves alone: it never changes the clock
    or any key other than ["mindmap_data"], and a request that is a GET, or
    that is not answered with a 200, leaves the whole world as it was. *)
Theorem handleSync_frame (req : Request) (cors : list (string * string))
    (w w' : World) (resp : Response) :
  handleSync req cors w = (Ok resp, w') →
  clock w' = clock w
  ∧ (∀ key, key ≠ "mindmap_data" →
            MINDMAP_KV w' !! key = MINDMAP_KV w !! key)
  ∧ (method req = "GET" ∨ status resp ≠ 200%Z → w' = w).
Proof.
  intros Hrun.
  destruct (handleSync_run req cors w) as (resp0 & w0 & Hrun0 & _ & Hcases).
  rewrite Hrun in Hrun0. injection Hrun0 as <- <-.
  destruct Hcases as [(Hget & -> & Hst & _)
      |[(Hget & _ & d & -> & Hst & _)
      |[(Hget & _ & -> & Hst & _)
      |[(Hget & _ & -> & Hst & _)
      |(Hget & _ & -> & Hst & _)]]]]; simpl; split_and!; try done.
  - intros key Hkey. by rewrite lookup_insert_ne.
  - intros [?|?]; congruence.
Qed.

(** X12. What a push stores is what a read gives back: after a POST
    answered with a 200, the snapshot in the answer is the one stored, and
    a GET served next returns that same snapshot and changes nothing. *)
Theorem push_then_get_round_trip (req get : Request)
    (cors cors' : list (string * string)) (w w' : World) (resp : Response) :
  method req = "POST" → method get = "GET" →
  handleSync req cors w = (Ok resp, w') →
  status resp = 200%Z →
  ∃ d resp',
    data (body resp) = Some (Some d)
    ∧ MINDMAP_KV w' !! "mindmap_data" = Some d
    ∧ handleSync get cors' w' = (Ok resp', w')
    ∧ status resp' = 200%Z
    ∧ data (body resp') = Some (Some d).
Proof.
  intros Hpost Hget Hrun Hok.
  destruct (handleSync_run req cors w) as (resp0 & w0 & Hrun0 & _ & Hcases).
  rewrite Hrun in Hrun0. injection Hrun0 as <- <-.
  destruct Hcases as [(Hg & _)
      |[(_ & _ & d & -> & Hst & Hbody & _)
      |[(_ & _ & _ & Hst & _)
      |[(_ & _ & _ & Hst & _)
      |(_ & Hp & _)]]]]; try congruence.
  destruct (handleSync_run get cors'
              {| MINDMAP_KV := <["mindmap_data" := d]> (MINDMAP_KV w);
                 clock := clock w |})
    as (resp' & w'' & Hrun' & _ & Hcases').
  destruct Hcases' as [(_ & -> & Hst' & Hbody')|[(Hg & _)
      |[(Hg & _)|[(Hg & _)|(Hg & _)]]]]; try congruence.
  exists d, resp'. rewrite Hbody, Hbody'. simpl.
  rewrite lookup_insert_eq. done.
Qed.

(** X13. With one side missing the other is adopted as it is.  A push
    against an empty store stores the pushed snapshot unchanged, timestamp
    included; a push without a snapshot against a non-empty store answers
    with the stored snapshot and leaves the world exactly as it was. *)
Theorem missing_side_adopts_the_other (req : Request)
    (cors : list (string * string)) (w : World) (d : MindmapData) :
  method req = "POST" →
  (MINDMAP_KV w !! "mindmap_data" = None ∧ json req = Ok (BodyValue (Some d)))
  ∨ (MINDMAP_KV w !! "mindmap_data" = Some d ∧ json req = Ok (BodyValue None)) →
  ∃ resp w',
    handleSync req cors w = (Ok resp, w')
    ∧ status resp = 200%Z
    ∧ data (body resp) = Some (Some d)
    ∧ MINDMAP_KV w' = <["mindmap_data" := d]> (MINDMAP_KV w)
    ∧ clock w' = clock w
    ∧ (MINDMAP_KV w !! "mindmap_data" = Some d → w' = w).
Proof.
  intros Hpost Hside.
  destruct (handleSync_run req cors w) as (resp & w' & Hrun & _ & Hcases).
  exists resp, w'. split; [done|].
  destruct Hcases as [(Hg & _)
      |[(_ & _ & d' & -> & Hst & Hbody & Hwhich)
      |[(_ & _ & _ & _ & Hkv & Hjson & _)
      |[(_ & _ & _ & _ & e & Hjson & _)
      |(_ & Hp & _)]]]]; try congruence.
  - assert (d' = d) as ->.
    { destruct Hside as [[Hkv Hj]|[Hkv Hj]],
        Hwhich as [[Hkv' Hj']|[[Hkv' Hj']|(c & l & Hkv' & Hj' & _)]];
        congruence. }
    rewrite Hbody. simpl. split_and!; try done.
    intros Hkv. rewrite insert_id by done. apply World_eta.
  - destruct Hside as [[? ?]|[? ?]]; congruence.
  - destruct Hside as [[? Hj]|[? Hj]], Hjson as [?|[? _]]; congruence.
Qed.

(** X14. Pushing the snapshot that is already stored changes nothing but
    the timestamp: for a stored snapshot whose tree has distinct sibling
    ids, a [children] array at every node and a root that is not
    tombstoned, pushing it again stores a snapshot with the same tree,
    focus and view offset and the same deletion records, stamped with the
    clock. *)
Theorem pushing_the_stored_snapshot_again (req : Request)
    (cors : list (string * string)) (w : World) (l : MindmapData) :
  method req = "POST" →
  json req = Ok (BodyValue (Some l)) →
  MINDMAP_KV w !! "mindmap_data" = Some l →
  (∀ t, tree l = Some t →
        distinct_siblings t = true ∧ has_children_arrays t = true
        ∧ id t ∉ deletedIds_of l l) →
  ∃ resp m,
    handleSync req cors w
    = (Ok resp, {| MINDMAP_KV := <["mindmap_data" := m]> (MINDMAP_KV w);
                   clock := clock w |})
    ∧ status resp = 200%Z
    ∧ data (body resp) = Some (Some m)
    ∧ tree m = tree l
    ∧ currentCenterId m = currentCenterId l
    ∧ viewOffset m = viewOffset l
    ∧ (∀ r, r ∈ default [] (deletedNodes m) ↔ r ∈ default [] (deletedNodes l))
    ∧ timestamp m = clock w.
Proof.
  intros Hpost Hjson Hkv Hwf.
  destruct (handleSync_run req cors w) as (resp & w' & Hrun & _ & Hcases).
  destruct Hcases as [(Hg & _)
      |[(_ & _ & m & -> & Hst & Hbody & Hwhich)
      |[(_ & _ & _ & _ & Hkv' & _)
      |[(_ & _ & _ & _ & e & Hjson' & _)
      |(_ & Hp & _)]]]]; try congruence.
  2:{ destruct Hjson' as [?|[? _]]; congruence. }
  destruct Hwhich as [[Hkv' _]|[[_ Hj']|(c & l' & Hkv' & Hj' & Hm)]];
    try congruence.
  assert (c = l) as -> by congruence. assert (l' = l) as -> by congruence.
  rewrite mergeMindmapData_ok in Hm. injection Hm as <-.
  exists resp. eexists. split; [exact Hrun|]. rewrite Hbody. simpl.
  assert (newerData l l = l ∧ olderData l l = l) as [-> ->].
  { unfold newerData, olderData, localTime, cloudTime.
    by rewrite js_gt_refl. }
  split_and!; try done.
  - destruct (tree l) as [t|] eqn:Ht; [|done]. simpl.
    destruct (Hwf t eq_refl) as (? & ? & ?). by apply mergeNodes_obj_self.
  - intros r. rewrite allDeletedNodes_spec. naive_solver.
Qed.

(** X15. How the sync handler classifies what it cannot serve.  A method
    other than GET and POST is answered 405 without the body being read; a
    POST whose body cannot be decoded, or decodes to [null], is answered
    500 with the text of the error, whatever the store holds.  In each
    case the world is left as it was. *)
Theorem handleSync_error_answers (req : Request)
    (cors : list (string * string)) (w : World) :
  (method req ≠ "GET" → method req ≠ "POST" →
   ∃ resp, handleSync req cors w = (Ok resp, w)
           ∧ status resp = 405%Z
           ∧ error (body resp) = Some "Method not allowed")
  ∧ (∀ e, method req = "POST" → json req = Throw e →
      ∃ resp, handleSync req cors w = (Ok resp, w)
              ∧ status resp = 500%Z
              ∧ error (body resp) = Some (String_of_error e))
  ∧ (method req = "POST" → json req = Ok BodyNull →
      ∃ resp, handleSync req cors w = (Ok resp, w)
              ∧ status resp = 500%Z
              ∧ error (body resp)
                = Some "TypeError: Cannot read properties of null (reading 'localData')").
Proof.
  split_and!.
  - intros Hget Hpost. run_handleSync.
    rewrite !decide_False by done. eexists. split; [reflexivity|done].
  - intros e Hpost Hjson. run_handleSync.
    rewrite decide_False by (rewrite Hpost; done).
    rewrite decide_True by done. rewrite Hjson.
    eexists. split; [reflexivity|done].
  - intros Hpost Hjson. run_handleSync.
    rewrite decide_False by (rewrite Hpost; done).
    rewrite decide_True by done. rewrite Hjson.
    eexists. split; [reflexivity|done].
Qed.
End EndpointMore.

(** ** The vocabulary state endpoint *)

Ltac run_handleVocabState :=
  unfold handleVocabState, job_try_catch, mbind, mret, Job_bind, Job_ret,
    job_of_exc, VOCAB_get, VOCAB_put, VOCAB_delete, todayStr_now.

Lemma Site_eta (s : Site) :
  {| sync_world := sync_world s; VOCAB := VOCAB s |} = s.
Proof. by destruct s. Qed.

(** X16. A GET on the state endpoint never writes.  It sends the stored
    text as it is when there is one and it is not empty; when the key is
    missing or holds the empty text it sends a fresh state: no items,
    counters at zero, both dates set to the first ten characters of the
    clock reading. *)
Theorem state_get_serves_the_text_or_a_fresh_state (req : StateRequest)
    (cors : list (string * string)) (s : Site) :
  state_method req = "GET" →
  ∃ resp, handleVocabState req cors s = (Ok resp, s)
    ∧ state_status resp = 200%Z
    ∧ state_headers resp
      = cors ++ [("content-type", "application/json; charset=utf-8")]
    ∧ (∀ text, VOCAB s !! "state" = Some text → text ≠ "" →
               state_body resp = StoredText text)
    ∧ (VOCAB s !! "state" = None ∨ VOCAB s !! "state" = Some "" →
       state_body resp = FreshState (fresh_state (clock (sync_world s)))).
Proof.
  intros Hget. run_handleVocabState. rewrite decide_True by done.
  destruct (VOCAB s !! "state") as [text|] eqn:Hkv; simpl.
  - destruct (decide (text = "")) as [->|Hne].
    + eexists. split; [reflexivity|]. simpl. split_and!; try done.
      intros text [= <-]. done.
    + eexists. split; [reflexivity|]. simpl. split_and!; try done.
      * by intros text' [= <-].
      * intros [?|[= ->]]; done.
  - eexists. split; [reflexivity|]. simpl. split_and!; done.
Qed.

(** X17. What a PUT stores is what a GET sends back: a body that is an
    object with an [items] array is stored as its JSON text under
    ["state"] and answered 204 without a body, and a GET served next sends
    exactly that text.  Nothing else changes. *)
Theorem state_put_then_get_round_trip (put get : StateRequest)
    (cors cors' : list (string * string)) (s : Site) (text : string) :
  state_method put = "PUT" →
  state_json put = Ok (StateObject true text) →
  text ≠ "" →
  state_method get = "GET" →
  ∃ r s' r',
    handleVocabState put cors s = (Ok r, s')
    ∧ state_status r = 204%Z ∧ state_body r = NoBody
    ∧ VOCAB s' = <["state" := text]> (VOCAB s)
    ∧ sync_world s' = sync_world s
    ∧ handleVocabState get cors' s' = (Ok r', s')
    ∧ state_status r' = 200%Z
    ∧ state_body r' = StoredText text.
Proof.
  intros Hput Hjson Hne Hget.
  eexists _, _, _. split.
  { run_handleVocabState. rewrite decide_False by (rewrite Hput; done).
    rewrite decide_True by done. rewrite Hjson. simpl. reflexivity. }
  simpl. split_and!; try done.
  - run_handleVocabState. rewrite decide_True by done. simpl.
    rewrite lookup_insert_eq. simpl. rewrite decide_False by done.
    reflexivity.
  - done.
  - done.
Qed.

(** X18. A DELETE always answers 204, whether or not something was
    stored, removes only the key ["state"], and a second DELETE changes
    nothing more; a GET served next sends a fresh state and does not store
    it. *)
Theorem state_delete_then_get_is_fresh (del get : StateRequest)
    (cors cors' : list (string * string)) (s : Site) :
  state_method del = "DELETE" →
  state_method get = "GET" →
  ∃ r s' r',
    handleVocabState del cors s = (Ok r, s')
    ∧ state_status r = 204%Z
    ∧ VOCAB s' = delete "state" (VOCAB s)
    ∧ sync_world s' = sync_world s
    ∧ handleVocabState del cors s' = (Ok r, s')
    ∧ handleVocabState get cors' s' = (Ok r', s')
    ∧ state_body r' = FreshState (fresh_state (clock (sync_world s))).
Proof.
  intros Hdel Hget.
  assert (state_method del ≠ "GET") by (rewrite Hdel; done).
  assert (state_method del ≠ "PUT") by (rewrite Hdel; done).
  eexists _, _, _. split.
  { run_handleVocabState. rewrite !decide_False by done.
    rewrite decide_True by done. reflexivity. }
  simpl. split_and!; try done.
  - run_handleVocabState. rewrite !decide_False by done.
    rewrite decide_True by done. simpl.
    by rewrite delete_delete_eq.
  - run_handleVocabState. rewrite decide_True by done. simpl.
    rewrite lookup_delete_eq. simpl. reflexivity.
  - done.
Qed.

(** X19. A PUT that is not an object with an [items] array stores
    nothing.  A number, string or boolean, or an object or array whose
    [items] is not an array, is answered 400 "Invalid state shape"; a body
    that is JSON [null] gets past the [typeof] test, the read of [.items]
    throws, and the answer is a 500, as for a body that cannot be
    decoded. *)
Theorem state_put_rejects_other_shapes (req : StateRequest)
    (cors : list (string * string)) (s : Site) :
  state_method req = "PUT" →
  (∀ text, state_json req = Ok (StatePrimitive text)
           ∨ state_json req = Ok (StateObject false text) →
     ∃ resp, handleVocabState req cors s = (Ok resp, s)
             ∧ state_status resp = 400%Z
             ∧ state_body resp = StateError "Invalid state shape")
  ∧ (state_json req = Ok StateNull →
     ∃ resp, handleVocabState req cors s = (Ok resp, s)
             ∧ state_status resp = 500%Z
             ∧ state_body resp
               = StateError "TypeError: Cannot read properties of null (reading 'items')")
  ∧ (∀ e, state_json req = Throw e →
     ∃ resp, handleVocabState req cors s = (Ok resp, s)
             ∧ state_status resp = 500%Z
             ∧ state_body resp = StateError (String_of_error e)).
Proof.
  intros Hput.
  assert (state_method req ≠ "GET") by (rewrite Hput; done).
  split_and!.
  - intros text [Hj|Hj]; run_handleVocabState;
      rewrite decide_False by done; rewrite decide_True by done;
      rewrite Hj; simpl; eexists; (split; [reflexivity|done]).
  - intros Hj. run_handleVocabState.
    rewrite decide_False by done. rewrite decide_True by done.
    rewrite Hj. simpl. eexists. split; [reflexivity|done].
  - intros e Hj. run_handleVocabState.
    rewrite decide_False by done. rewrite decide_True by done.
    rewrite Hj. simpl. eexists. split; [reflexivity|done].
Qed.

(** Every run of the state handler leaves the sync world and every key
    other than ["state"] alone, and never throws. *)
Lemma handleVocabState_run (req : StateRequest)
    (cors : list (string * string)) (s : Site) :
  ∃ resp s', handleVocabState req cors s = (Ok resp, s')
    ∧ state_status resp ∈ [200; 204; 400; 405; 500]%Z
    ∧ sync_world s' = sync_world s
    ∧ (∀ key, key ≠ "state" → VOCAB s' !! key = VOCAB s !! key)
    ∧ (state_status resp ≠ 204%Z → s' = s)
    ∧ (VOCAB s' ≠ VOCAB s →
       state_method req = "PUT" ∨ state_method req = "DELETE").
Proof.
  run_handleVocabState.
  destruct (decide (state_method req = "GET")) as [Hget|Hget].
  { destruct (VOCAB s !! "state") as [text|]; simpl;
      [destruct (decide (text = ""))|];
      eexists _, _; (split; [reflexivity|]); simpl;
      (split_and!; [set_solver|done..]). }
  destruct (decide (state_method req = "PUT")) as [Hput|Hput].
  { destruct (state_json req) as [e|[|text|[] text]]; simpl;
      eexists _, _; (split; [reflexivity|]); simpl;
      (split_and!; [set_solver|try done..]);
      try (intros; by left).
    intros key Hkey. by rewrite lookup_insert_ne. }
  destruct (decide (state_method req = "DELETE")) as [Hdel|Hdel].
  { eexists _, _. split; [reflexivity|]. simpl.
    split_and!; [set_solver|try done..]; try (intros; by right).
    intros key Hkey. by rewrite lookup_delete_ne. }
  eexists _, _. split; [reflexivity|]. simpl.
  split_and!; [set_solver|done..].
Qed.

(** X20. The state handler answers every request: no exception escapes
    it and the status is 200, 204, 400, 405 or 500.  It never touches the
    sync store or the clock, nor any key other than ["state"], and only an
    answer 204 can go with a change. *)
Theorem handleVocabState_always_answers (req : StateRequest)
    (cors : list (string * string)) (s : Site) :
  ∃ resp s', handleVocabState req cors s = (Ok resp, s')
    ∧ state_status resp ∈ [200; 204; 400; 405; 500]%Z
    ∧ sync_world s' = sync_world s
    ∧ (∀ key, key ≠ "state" → VOCAB s' !! key = VOCAB s !! key)
    ∧ (state_status resp ≠ 204%Z → s' = s).
Proof.
  destruct (handleVocabState_run req cors s)
    as (resp & s' & Hrun & Hst & Hw & Hkeys & Hsame & _).
  by exists resp, s'.
Qed.

(** ** The router *)

Lemma dot_is_not_alnum : is_alnum "."%char = false.
Proof. reflexivity. Qed.

Lemma alnum_run_app (r rest : list ascii) (c : ascii) :
  Forall (λ a, is_alnum a = true) r → is_alnum c = false →
  alnum_run (r ++ c :: rest) = length r.
Proof.
  intros Hr Hc. induction Hr as [|a r Ha Hr IH]; simpl.
  - by rewrite Hc.
  - by rewrite Ha, IH.
Qed.

Lemma alnum_run_take (cs : list ascii) :
  Forall (λ a, is_alnum a = true) (take (alnum_run cs) cs).
Proof.
  induction cs as [|c cs IH]; simpl; [constructor|].
  destruct (is_alnum c) eqn:Hc; simpl; [|constructor].
  by constructor.
Qed.

(** X21. The extension test of the router: a path has an extension
    exactly when it ends with a dot followed by one or more characters, all
    of them ASCII letters or digits. *)
Theorem hasExtension_spec (pathname : string) :
  hasExtension pathname = true
  ↔ ∃ pre ext, String.list_ascii_of_string pathname = pre ++ "."%char :: ext
               ∧ ext ≠ []
               ∧ Forall (λ a, is_alnum a = true) ext.
Proof.
  unfold hasExtension.
  set (cs := String.list_ascii_of_string pathname).
  rewrite andb_true_iff, !bool_decide_eq_true. split.
  - intros [Hpos Hdot].
    pose proof (alnum_run_take (reverse cs)) as Hrun.
    set (n := alnum_run (reverse cs)) in *.
    pose proof (take_drop_middle _ _ _ Hdot) as Hsplit.
    exists (reverse (drop (S n) (reverse cs))), (reverse (take n (reverse cs))).
    split_and!.
    + rewrite <- (reverse_involutive cs), <- Hsplit at 1.
      rewrite reverse_app, reverse_cons, <- app_assoc. done.
    + intros Hnil. apply (f_equal length) in Hnil.
      rewrite length_reverse, length_take in Hnil. simpl in Hnil.
      apply lookup_lt_Some in Hdot. lia.
    + by apply Forall_reverse.
  - intros (pre & ext & Hcs & Hne & Hext).
    assert (reverse cs = reverse ext ++ "."%char :: reverse pre) as Hback.
    { rewrite Hcs, reverse_app, reverse_cons, <- app_assoc. done. }
    rewrite Hback, alnum_run_app, length_reverse;
      [|by apply Forall_reverse|apply dot_is_not_alnum].
    split.
    + destruct ext; [done|simpl; lia].
    + rewrite lookup_app_r by (rewrite length_reverse; lia).
      by rewrite length_reverse, Nat.sub_diag.
Qed.

Section RouterMore.
Context `{Runtime}.

(** X22. The worker writes only through its two API routes.  With an
    asset fetcher that answers, [fetch] answers every request (what the two
    API handlers throw is caught inside them); the clock is never changed;
    the sync store changes only for a POST on [/api/sync], and the
    vocabulary store only for a PUT or a DELETE on [/api/state].  In
    particular an OPTIONS request, whatever its path, and every request for
    a page or an asset leave both stores as they were. *)
Theorem fetch_writes_only_through_the_api (req : FetchRequest)
    (ASSETS : string → AssetResponse) (s : Site) :
  ∃ resp s', fetch req ASSETS s = (Ok resp, s')
    ∧ clock (sync_world s') = clock (sync_world s)
    ∧ (MINDMAP_KV (sync_world s') ≠ MINDMAP_KV (sync_world s) →
       url_pathname req = "/api/sync" ∧ fetch_method req = "POST")
    ∧ (VOCAB s' ≠ VOCAB s →
       url_pathname req = "/api/state"
       ∧ (fetch_method req = "PUT" ∨ fetch_method req = "DELETE")).
Proof.
  unfold fetch.
  destruct (decide (fetch_method req = "OPTIONS")) as [Hopt|Hopt].
  { eexists _, _. split; [reflexivity|done]. }
  destruct (decide (url_pathname req = "/api/state")) as [Hstate|Hstate].
  { destruct (handleVocabState_run
                {| state_method := fetch_method req;
                   state_json := body_for_state req |} corsHeaders s)
      as (resp & s' & Hrun & _ & Hw & _ & _ & Hchange).
    unfold mbind, mret, Job_bind, Job_ret. rewrite Hrun.
    eexists _, _. split; [reflexivity|]. rewrite Hw.
    split_and!; [done|done|]. intros Hv. split; [done|]. by apply Hchange. }
  destruct (decide (url_pathname req = "/api/sync")) as [Hsync|Hsync].
  { destruct (handleSync_run
                {| method := fetch_method req; json := body_for_sync req |}
                corsHeaders (sync_world s))
      as (resp & w' & Hrun & _ & Hcases).
    unfold mbind, mret, Job_bind, Job_ret, job_of_task. rewrite Hrun.
    eexists _, _. split; [reflexivity|]. simpl.
    destruct Hcases as [(_ & -> & _)
      |[(_ & Hpost & d & -> & _)
      |[(_ & _ & -> & _)
      |[(_ & _ & -> & _)
      |(_ & _ & -> & _)]]]]; simpl; split_and!; done. }
  repeat case_decide; try destruct (negb _);
    (eexists _, _; split; [reflexivity|done]).
Qed.

(** X23. How pages and assets are served.  For a request that is not
    OPTIONS and whose path is none of the routes, the answer comes from the
    asset fetcher and nothing is written: the asset itself when it is
    found; when it is missing (404), the page [/index.html] if the path has
    no extension, and the 404 itself if it has one. *)
Theorem fetch_falls_back_to_the_index_page (req : FetchRequest)
    (ASSETS : string → AssetResponse) (s : Site) :
  fetch_method req ≠ "OPTIONS" →
  url_pathname req ∉ ["/api/state"; "/api/sync"; "/"; "";
                      "/quiz"; "/quiz/"; "/vocab"; "/vocab/"] →
  ∃ r, fetch req ASSETS s = (Ok (FromAssets r), s)
    ∧ (asset_status (ASSETS (url_pathname req)) ≠ 404%Z →
       r = ASSETS (url_pathname req))
    ∧ (asset_status (ASSETS (url_pathname req)) = 404%Z →
       hasExtension (url_pathname req) = true →
       r = ASSETS (url_pathname req) ∧ asset_status r = 404%Z)
    ∧ (asset_status (ASSETS (url_pathname req)) = 404%Z →
       hasExtension (url_pathname req) = false →
       r = ASSETS "/index.html").
Proof.
  intros Hopt Hpath. unfold fetch.
  rewrite !decide_False by set_solver.
  destruct (decide (asset_status (ASSETS (url_pathname req)) ≠ 404%Z))
    as [Hfound|Hmissing].
  - eexists. split; [reflexivity|]. split_and!; try done.
  - apply dec_stable in Hmissing.
    destruct (hasExtension (url_pathname req)) eqn:Hext; simpl;
      (eexists; split; [reflexivity|]); split_and!; try done.
Qed.

End RouterMore.

(** ** Worked scenarios *)

Import Scenario.

Ltac by_evaluation := apply (bool_decide_unpack _); vm_compute; exact I.

(** C1. Deletion wins over a concurrent edit only when the deleting
    replica is the newer one.  The cloud replica deleted K at T1 (K is
    named by its record and absent from its tree); the local replica
    edited K at T2, later.  The merged records name K, and yet the merged
    tree still contains K; the same happens with the two replicas
    exchanged.  With the timestamps exchanged, so that the deleting replica
    is the newer one, K is absent from the merged tree. *)
Theorem C1_edited_node_on_the_newer_side_survives_its_deletion :
  KString "K" ∈ deletedIds_of (deleter T1) (editor T2)
  ∧ (KString "K" ∉ ids_of_tree (tree (deleter T1)))
  ∧ KString "K" ∈ ids_of_tree (tree (editor T2))
  ∧ (∃ m, mergeMindmapData T3 (deleter T1) (editor T2) = Ok m
          ∧ KString "K" ∈ ids_of_tree (tree m)
          ∧ deletedNodes m = Some [stringify_id "K"])
  ∧ (∃ m, mergeMindmapData T3 (editor T2) (deleter T1) = Ok m
          ∧ KString "K" ∈ ids_of_tree (tree m)
          ∧ deletedNodes m = Some [stringify_id "K"])
  ∧ (∃ m, mergeMindmapData T3 (deleter T2) (editor T1) = Ok m
          ∧ (KString "K" ∉ ids_of_tree (tree m))
          ∧ deletedNodes m = Some [stringify_id "K"]).
Proof.
  split_and!.
  - by_evaluation.
  - by_evaluation.
  - by_evaluation.
  - eexists. split; [vm_compute; reflexivity|]. split.
    + by_evaluation.
    + reflexivity.
  - eexists. split; [vm_compute; reflexivity|]. split.
    + by_evaluation.
    + reflexivity.
  - eexists. split; [vm_compute; reflexivity|]. split.
    + by_evaluation.
    + reflexivity.
Qed.

(** C2, the tie: with equal timestamps the merged root
    fields, [currentCenterId] and [viewOffset] are the cloud's, and differ
    from those of the snapshot passed as local, which therefore does not
    win the tie. *)
Lemma C2_tie_takes_the_cloud_values :
  Date_getTime (timestamp local_tie) = Date_getTime (timestamp cloud_tie)
  ∧ ∃ m tm tl,
      mergeMindmapData T3 cloud_tie local_tie = Ok m
      ∧ tree m = Some tm ∧ tree local_tie = Some tl
      ∧ id tm = id tl
      ∧ fields tm ≠ fields tl
      ∧ currentCenterId m ≠ currentCenterId local_tie
      ∧ viewOffset m ≠ viewOffset local_tie
      ∧ fields tm = [("text", "cloud title")]
      ∧ currentCenterId m = currentCenterId cloud_tie
      ∧ viewOffset m = viewOffset cloud_tie.
Proof.
  split; [reflexivity|].
  eexists _, _, _. split; [vm_compute; reflexivity|].
  split_and!; try reflexivity; discriminate.
Qed.

(** C2 at work: the local replica is later, and gives the
    scalars. *)
Lemma C2_witness :
  ∃ m, mergeMindmapData T3 (deleter T1) (editor T2) = Ok m
       ∧ scalars_from (deletedIds_of (deleter T1) (editor T2)) m
           (editor T2) (deleter T1).
Proof.
  destruct (C2_newer_wins_and_cloud_wins_a_tie T3 (deleter T1) (editor T2))
    as (m & Hm & Hlocal & _ & _).
  exists m. split; [exact Hm|].
  apply (Hlocal 1704184200000%Z 1704067200000%Z); [reflexivity|reflexivity|lia].
Defined.

(** C3 at work on two replicas stamped T1. *)
Lemma C3_witness :
  Date_getTime (timestamp local_tie) = Date_getTime (timestamp cloud_tie)
  ∧ newerData cloud_tie local_tie = cloud_tie
  ∧ olderData cloud_tie local_tie = local_tie
  ∧ ∃ m, mergeMindmapData T3 cloud_tie local_tie = Ok m
         ∧ tree m = mergeNodes (tree cloud_tie) (tree local_tie)
                      (deletedIds_of cloud_tie local_tie)
         ∧ currentCenterId m = currentCenterId cloud_tie
         ∧ viewOffset m = viewOffset cloud_tie.
Proof.
  split; [reflexivity|].
  apply (C3_tie_makes_cloud_newer T3 cloud_tie local_tie). reflexivity.
Defined.

(** C5 needs its side conditions: a snapshot whose records name its own
    root merges with itself into a snapshot without a tree, and a root
    without a [children] property comes back with an empty [children]
    array. *)
Lemma C5_root_tombstone_and_missing_children :
  (∃ m, mergeMindmapData T2 tombstoned_root tombstoned_root = Ok m
        ∧ tree m = None
        ∧ tree m ≠ tree tombstoned_root)
  ∧ (∃ m, mergeMindmapData T2 bare_root bare_root = Ok m
          ∧ tree m = Some (mkNode (KString "root") [("text", "Root")] (Some []))
          ∧ tree m ≠ tree bare_root).
Proof.
  split.
  - eexists. split; [vm_compute; reflexivity|].
    split; [reflexivity|discriminate].
  - eexists. split; [vm_compute; reflexivity|].
    split; [reflexivity|discriminate].
Qed.

(** C5 at work: the same tree and records, stamped T1 and T2. *)
Lemma C5_witness :
  ∃ m, mergeMindmapData T3 (deleter T1) (deleter T2) = Ok m
       ∧ tree m = tree (deleter T1).
Proof.
  apply (C5_merge_with_itself T3 (deleter T1) (deleter T2));
    [reflexivity|reflexivity|].
  intros t [= <-]. split_and!; [reflexivity|reflexivity|by_evaluation].
Defined.

(** C6 needs a live parent: the additions are not both kept when a
    record names the common parent.  The
    cloud adds X under the parent and the local replica adds Y, neither
    X nor Y is tombstoned.  If the parent is the root, the merged snapshot
    has no tree at all; if it is a node N below the root, the merged N is
    the newer replica's N as it was, without X. *)
Lemma C6_tombstoned_parent_loses_additions :
  (∃ tc tl X Y,
     tree cloud_adds_X = Some tc ∧ tree local_adds_Y = Some tl
     ∧ node_at [] tc = Some tc ∧ node_at [] tl = Some tl
     ∧ id tc = id tl
     ∧ X ∈ kids tc ∧ Y ∈ kids tl
     ∧ (id X ∉ deletedIds_of cloud_adds_X local_adds_Y)
     ∧ (id Y ∉ deletedIds_of cloud_adds_X local_adds_Y)
     ∧ ∃ m, mergeMindmapData T3 cloud_adds_X local_adds_Y = Ok m
            ∧ tree m = None)
  ∧ (∃ tc tl Nc Nl X Y,
       tree cloud_adds_X_under_N = Some tc
       ∧ tree local_adds_Y_under_N = Some tl
       ∧ node_at [KString "N"] tc = Some Nc
       ∧ node_at [KString "N"] tl = Some Nl
       ∧ X ∈ kids Nc ∧ Y ∈ kids Nl
       ∧ (id X ∉ deletedIds_of cloud_adds_X_under_N local_adds_Y_under_N)
       ∧ (id Y ∉ deletedIds_of cloud_adds_X_under_N local_adds_Y_under_N)
       ∧ ∃ m tm Nm,
           mergeMindmapData T3 cloud_adds_X_under_N local_adds_Y_under_N = Ok m
           ∧ tree m = Some tm
           ∧ node_at [KString "N"] tm = Some Nm
           ∧ id X ∉ child_ids (kids Nm)).
Proof.
  split.
  - exists (branch "root" "Root" [leaf "X" "x"]),
      (branch "root" "Root" [leaf "Y" "y"]), (leaf "X" "x"), (leaf "Y" "y").
    split_and!; try reflexivity; try by_evaluation; try (by left).
    eexists. split; [vm_compute; reflexivity|reflexivity].
  - exists (branch "root" "Root" [branch "N" "n" [leaf "X" "x"]]),
      (branch "root" "Root" [branch "N" "n" [leaf "Y" "y"]]),
      (branch "N" "n" [leaf "X" "x"]), (branch "N" "n" [leaf "Y" "y"]),
      (leaf "X" "x"), (leaf "Y" "y").
    split_and!; try reflexivity; try by_evaluation; try (by left).
    eexists _, _, _. split; [vm_compute; reflexivity|].
    split_and!; try reflexivity. by_evaluation.
Qed.

(** C6 at work on the scenario root→{A} against root→{A,B}. *)
Lemma C6_witness :
  ∃ m tm Nm,
    mergeMindmapData T3 remote_A local_AB = Ok m
    ∧ tree m = Some tm ∧ node_at [] tm = Some Nm
    ∧ id (leaf "A" "a") ∈ child_ids (kids Nm)
    ∧ id (leaf "B" "b") ∈ child_ids (kids Nm)
    ∧ (id (leaf "A" "a")
         ∉ child_ids (kids (branch "root" "Root" [leaf "A" "a"; leaf "B" "b"])) →
       leaf "A" "a" ∈ kids Nm)
    ∧ (id (leaf "B" "b")
         ∉ child_ids (kids (branch "root" "Root" [leaf "A" "a"])) →
       leaf "B" "b" ∈ kids Nm).
Proof.
  apply (proj1 C6_additions_of_both_sides_are_kept T3 remote_A local_AB
           (branch "root" "Root" [leaf "A" "a"])
           (branch "root" "Root" [leaf "A" "a"; leaf "B" "b"])
           [] _ _ (leaf "A" "a") (leaf "B" "b"));
    try reflexivity; try by_evaluation.
  - left.
  - right. left.
Defined.

(** The addition scenario, evaluated: the merged snapshot is the local
    one, stamped with the clock reading. *)
Example addition_scenario :
  mergeMindmapData T3 remote_A local_AB
  = Ok {| tree := Some (branch "root" "Root" [leaf "A" "a"; leaf "B" "b"]);
          currentCenterId := "root"; viewOffset := mkViewOffset 0 0;
          deletedNodes := Some []; timestamp := T3 |}.
Proof. vm_compute. reflexivity. Qed.

(** The deletion scenario, evaluated: the cloud has root→{A,B} at T1, the
    local replica has root→{A} at T2 with a record naming B; B does not
    come back. *)
Example deletion_scenario :
  mergeMindmapData T3
    (snapshot (branch "root" "Root" [leaf "A" "a"; leaf "B" "b"]) "root" [] T1)
    (snapshot (branch "root" "Root" [leaf "A" "a"]) "root" [stringify_id "B"] T2)
  = Ok {| tree := Some (branch "root" "Root" [leaf "A" "a"]);
          currentCenterId := "root"; viewOffset := mkViewOffset 0 0;
          deletedNodes := Some [stringify_id "B"]; timestamp := T3 |}.
Proof. vm_compute. reflexivity. Qed.

(** C7 at work: K, present in the newer tree only, is in the merged tree
    although a record names it. *)
Lemma C7_witness :
  ∃ m, mergeMindmapData T3 (deleter T1) (editor T2) = Ok m
       ∧ KString "K" ∈ ids_of_tree (tree m).
Proof.
  destruct (C7_newer_side_is_never_pruned T3 (deleter T1) (editor T2))
    as (m & Hm & Hkept & _).
  - intros t [= <-]. split; [reflexivity|by_evaluation].
  - intros t [= <-]. split; [reflexivity|by_evaluation].
  - exists m. split; [exact Hm|]. apply Hkept. by_evaluation.
Defined.

(** C8, the pushes that the 400 does not cover: on an empty store a
    POST whose body is the JSON text [null], or is empty, holds no local
    snapshot either, yet it is answered 500 with the text of the error
    and not 400 "No data provided".  The store is left as it was. *)
Lemma C8_null_or_undecodable_body_is_a_server_fault :
  MINDMAP_KV empty_world !! "mindmap_data" = None
  ∧ method null_post = "POST" ∧ method undecodable_post = "POST"
  ∧ (∃ resp, handleSync null_post [] empty_world = (Ok resp, empty_world)
             ∧ status resp = 500%Z
             ∧ status resp ≠ 400%Z
             ∧ success (body resp) = false
             ∧ error (body resp)
               = Some "TypeError: Cannot read properties of null (reading 'localData')"
             ∧ error (body resp) ≠ Some "No data provided")
  ∧ (∃ resp, handleSync undecodable_post [] empty_world
             = (Ok resp, empty_world)
             ∧ status resp = 500%Z
             ∧ status resp ≠ 400%Z
             ∧ success (body resp) = false
             ∧ error (body resp)
               = Some "SyntaxError: Unexpected end of JSON input"
             ∧ error (body resp) ≠ Some "No data provided").
Proof.
  split_and!; try reflexivity.
  - eexists. split; [vm_compute; reflexivity|].
    split_and!; try reflexivity; discriminate.
  - eexists. split; [vm_compute; reflexivity|].
    split_and!; try reflexivity; discriminate.
Qed.

(** C8 at work: an empty push against an empty store. *)
Lemma C8_witness :
  ∃ resp, handleSync empty_post [] empty_world = (Ok resp, empty_world)
          ∧ status resp = 400%Z
          ∧ status resp ≠ 500%Z
          ∧ body resp = {| success := false; data := None;
                           error := Some "No data provided"; stack := None |}.
Proof.
  apply (C8_no_data_is_a_client_error empty_post [] empty_world); reflexivity.
Defined.

(** C9 at work: text that is not JSON, the text [null], and an object
    without an id. *)
Lemma C9_witness :
  add_record_id ∅ "not json" = Ok ∅
  ∧ add_record_id ∅ "null" = Ok ∅
  ∧ ∃ d', add_record_id ∅ "{}" = Ok d'
          ∧ ∀ s, KString s ∈ d' ↔ KString s ∈ (∅ : gset JsKey).
Proof.
  destruct (C9_malformed_records_are_skipped T3 (deleter T1) (editor T2))
    as (Hthrow & Hnoid & _).
  split_and!.
  - apply (Hthrow ∅ "not json" (SyntaxError "Unexpected token")). reflexivity.
  - apply (Hthrow ∅ "null"
             (TypeError "Cannot read properties of null (reading 'id')")).
    reflexivity.
  - apply (Hnoid ∅ "{}"). intros s Hs. vm_compute in Hs. discriminate Hs.
Defined.

(** C10 at work: a push merged with the stored snapshot carries the
    clock of the world, T3, not T1 or T2. *)
Lemma C10_witness :
  ∃ resp m,
    handleSync (push_of (editor T2)) [] synced_world
    = (Ok resp,
       {| MINDMAP_KV := <["mindmap_data" := m]> (MINDMAP_KV synced_world);
          clock := clock synced_world |})
    ∧ data (body resp) = Some (Some m)
    ∧ timestamp m = clock synced_world.
Proof.
  apply (proj2 (C10_timestamp_is_the_clock_reading T3 (deleter T1) (editor T2))
           (push_of (editor T2)) [] synced_world);
    [reflexivity|reflexivity|].
  apply lookup_singleton_eq.
Defined.

(** ** More worked scenarios *)

(** X1 at work: A and K keep their places, B is appended, Z is not. *)
Lemma merged_children_keep_newer_order_witness :
  child_ids (kids merged_AKBP)
  = child_ids (kids newer_AK)
    ++ child_ids (filter (λ c, (id c ∉ tombstones_ZG)
                               ∧ (id c ∉ child_ids (kids newer_AK)))
                    (kids older_BAZP)).
Proof.
  apply (merged_children_keep_newer_order tombstones_ZG newer_AK older_BAZP).
  vm_compute. reflexivity.
Defined.

(** X2 at work. *)
Lemma merge_never_invents_a_node_witness :
  KString "P" ∈ ids_of_tree (Some newer_AK)
  ∨ KString "P" ∈ ids_of_tree (Some older_BAZP).
Proof.
  apply (merge_never_invents_a_node tombstones_ZG (Some newer_AK)
           (Some older_BAZP) merged_AKBP (KString "P")).
  - vm_compute. reflexivity.
  - by_evaluation.
Defined.

(** X3 at work: the branch P comes over from the older side with the
    tombstoned G inside it. *)
Lemma older_only_branch_is_appended_whole_witness :
  KString "G" ∈ tombstones_ZG
  ∧ branch "P" "p" [leaf "G" "g"] ∈ kids merged_AKBP
  ∧ KString "G" ∈ tree_ids merged_AKBP.
Proof.
  split; [by_evaluation|].
  destruct (older_only_branch_is_appended_whole tombstones_ZG newer_AK
              older_BAZP merged_AKBP (branch "P" "p" [leaf "G" "g"]))
    as [Hin Hids].
  - vm_compute. reflexivity.
  - do 3 right. left.
  - by_evaluation.
  - by_evaluation.
  - split; [exact Hin|]. apply Hids. by_evaluation.
Defined.

(** X4 at work on root→{A} against root→{A,B}. *)
Lemma merge_without_tombstones_is_a_union_witness :
  ∃ m tm, mergeMindmapData T3 remote_A local_AB = Ok m
          ∧ tree m = Some tm
          ∧ ∀ k, k ∈ tree_ids tm
                 ↔ k ∈ tree_ids (branch "root" "Root" [leaf "A" "a"])
                   ∨ k ∈ tree_ids (branch "root" "Root" [leaf "A" "a"; leaf "B" "b"]).
Proof.
  apply (merge_without_tombstones_is_a_union T3 remote_A local_AB);
    try reflexivity.
  intros k _. by_evaluation.
Defined.

(** X7 at work. *)
Lemma merge_is_symmetric_off_ties_witness :
  ∃ m m' rs rs',
    mergeMindmapData T3 (deleter T1) (editor T2) = Ok m
    ∧ mergeMindmapData T3 (editor T2) (deleter T1) = Ok m'
    ∧ tree m = tree m'
    ∧ currentCenterId m = currentCenterId m'
    ∧ viewOffset m = viewOffset m'
    ∧ timestamp m = timestamp m'
    ∧ deletedNodes m = Some rs ∧ deletedNodes m' = Some rs'
    ∧ ∀ r, r ∈ rs ↔ r ∈ rs'.
Proof.
  apply (merge_is_symmetric_off_ties T3 (deleter T1) (editor T2)
           1704067200000%Z 1704184200000%Z); [reflexivity|reflexivity|lia].
Defined.

(** X8 at work: K and Z stay first, G is appended once. *)
Lemma stored_records_keep_their_order_witness :
  ∃ m added,
    mergeMindmapData T3 cloud_records local_records = Ok m
    ∧ deletedNodes m
      = Some (default [] (deletedNodes cloud_records) ++ added)
    ∧ NoDup added
    ∧ ∀ r, r ∈ added
           ↔ r ∈ default [] (deletedNodes local_records)
             ∧ r ∉ default [] (deletedNodes cloud_records).
Proof.
  apply (stored_records_keep_their_order T3 cloud_records local_records).
  by_evaluation.
Defined.

(** X11 at work on a first push. *)
Lemma handleSync_frame_witness :
  clock first_push_world = clock empty_world
  ∧ (∀ key, key ≠ "mindmap_data" →
       MINDMAP_KV first_push_world !! key = MINDMAP_KV empty_world !! key)
  ∧ (method (push_of (editor T2)) = "GET"
     ∨ status first_push_response ≠ 200%Z →
     first_push_world = empty_world).
Proof.
  apply (handleSync_frame (push_of (editor T2)) [] empty_world
           first_push_world first_push_response).
  reflexivity.
Defined.

(** X12 at work: push, then read. *)
Lemma push_then_get_round_trip_witness :
  ∃ d resp',
    data (body first_push_response) = Some (Some d)
    ∧ MINDMAP_KV first_push_world !! "mindmap_data" = Some d
    ∧ handleSync get_request [] first_push_world = (Ok resp', first_push_world)
    ∧ status resp' = 200%Z
    ∧ data (body resp') = Some (Some d).
Proof.
  apply (push_then_get_round_trip (push_of (editor T2)) get_request [] []
           empty_world first_push_world first_push_response);
    reflexivity.
Defined.

(** X13 at work: a first push is stored as it is, stamped T2. *)
Lemma missing_side_adopts_the_other_witness :
  ∃ resp w',
    handleSync (push_of (editor T2)) [] empty_world = (Ok resp, w')
    ∧ status resp = 200%Z
    ∧ data (body resp) = Some (Some (editor T2))
    ∧ MINDMAP_KV w' = <["mindmap_data" := editor T2]> (MINDMAP_KV empty_world)
    ∧ clock w' = clock empty_world
    ∧ (MINDMAP_KV empty_world !! "mindmap_data" = Some (editor T2) →
       w' = empty_world).
Proof.
  apply (missing_side_adopts_the_other (push_of (editor T2)) [] empty_world
           (editor T2)); [reflexivity|].
  left. split; reflexivity.
Defined.

(** X14 at work: the stored snapshot is pushed again. *)
Lemma pushing_the_stored_snapshot_again_witness :
  ∃ resp m,
    handleSync (push_of (deleter T1)) [] synced_world
    = (Ok resp,
       {| MINDMAP_KV := <["mindmap_data" := m]> (MINDMAP_KV synced_world);
          clock := clock synced_world |})
    ∧ status resp = 200%Z
    ∧ data (body resp) = Some (Some m)
    ∧ tree m = tree (deleter T1)
    ∧ currentCenterId m = currentCenterId (deleter T1)
    ∧ viewOffset m = viewOffset (deleter T1)
    ∧ (∀ r, r ∈ default [] (deletedNodes m)
            ↔ r ∈ default [] (deletedNodes (deleter T1)))
    ∧ timestamp m = clock synced_world.
Proof.
  apply (pushing_the_stored_snapshot_again (push_of (deleter T1)) []
           synced_world (deleter T1)); [reflexivity|reflexivity| |].
  - apply lookup_singleton_eq.
  - intros t [= <-]. split_and!; [reflexivity|reflexivity|by_evaluation].
Defined.

(** X15 at work: a PATCH, and a POST that cannot be decoded. *)
Lemma handleSync_error_answers_witness :
  (∃ resp, handleSync patch_request [] synced_world = (Ok resp, synced_world)
           ∧ status resp = 405%Z
           ∧ error (body resp) = Some "Method not allowed")
  ∧ (∃ resp,
       handleSync {| method := "POST"; json := Ok BodyNull |} [] synced_world
       = (Ok resp, synced_world)
       ∧ status resp = 500%Z
       ∧ error (body resp)
         = Some "TypeError: Cannot read properties of null (reading 'localData')").
Proof.
  split.
  - apply (proj1 (handleSync_error_answers patch_request [] synced_world));
      discriminate.
  - apply (proj2 (proj2 (handleSync_error_answers
                           {| method := "POST"; json := Ok BodyNull |} []
                           synced_world))); reflexivity.
Defined.

(** X16 at work on an empty store at clock T3. *)
Lemma state_get_witness :
  ∃ resp, handleVocabState state_get [] empty_site = (Ok resp, empty_site)
    ∧ state_status resp = 200%Z
    ∧ state_headers resp
      = [] ++ [("content-type", "application/json; charset=utf-8")]
    ∧ (∀ text, VOCAB empty_site !! "state" = Some text → text ≠ "" →
               state_body resp = StoredText text)
    ∧ (VOCAB empty_site !! "state" = None
       ∨ VOCAB empty_site !! "state" = Some "" →
       state_body resp = FreshState (fresh_state (clock (sync_world empty_site)))).
Proof.
  apply (state_get_serves_the_text_or_a_fresh_state state_get [] empty_site).
  reflexivity.
Defined.

(** X17 at work. *)
Lemma state_put_then_get_round_trip_witness :
  ∃ r s' r',
    handleVocabState (state_put "{}") [] empty_site = (Ok r, s')
    ∧ state_status r = 204%Z ∧ state_body r = NoBody
    ∧ VOCAB s' = <["state" := "{}"]> (VOCAB empty_site)
    ∧ sync_world s' = sync_world empty_site
    ∧ handleVocabState state_get [] s' = (Ok r', s')
    ∧ state_status r' = 200%Z
    ∧ state_body r' = StoredText "{}".
Proof.
  apply (state_put_then_get_round_trip (state_put "{}") state_get [] []
           empty_site "{}"); [reflexivity|reflexivity|discriminate|reflexivity].
Defined.

(** X18 at work. *)
Lemma state_delete_then_get_is_fresh_witness :
  ∃ r s' r',
    handleVocabState state_delete [] empty_site = (Ok r, s')
    ∧ state_status r = 204%Z
    ∧ VOCAB s' = delete "state" (VOCAB empty_site)
    ∧ sync_world s' = sync_world empty_site
    ∧ handleVocabState state_delete [] s' = (Ok r, s')
    ∧ handleVocabState state_get [] s' = (Ok r', s')
    ∧ state_body r' = FreshState (fresh_state (clock (sync_world empty_site))).
Proof.
  apply (state_delete_then_get_is_fresh state_delete state_get [] []
           empty_site); reflexivity.
Defined.

(** X19 at work: a number is not a state. *)
Lemma state_put_rejects_other_shapes_witness :
  ∃ resp, handleVocabState state_put_number [] empty_site = (Ok resp, empty_site)
          ∧ state_status resp = 400%Z
          ∧ state_body resp = StateError "Invalid state shape".
Proof.
  destruct (state_put_rejects_other_shapes state_put_number [] empty_site)
    as (Hshape & _ & _); [reflexivity|].
  apply (Hshape "5"). left. reflexivity.
Defined.

(** X23 at work: a missing page without extension gets the index page, a
    missing asset with an extension stays missing. *)
Lemma fetch_falls_back_witness :
  (∃ r, fetch (page_request "/maps/42") two_pages empty_site
        = (Ok (FromAssets r), empty_site)
        ∧ r = two_pages "/index.html")
  ∧ (∃ r, fetch (page_request "/app.js") two_pages empty_site
          = (Ok (FromAssets r), empty_site)
          ∧ asset_status r = 404%Z).
Proof.
  split.
  - destruct (fetch_falls_back_to_the_index_page (page_request "/maps/42")
                two_pages empty_site) as (r & Hrun & _ & _ & Hindex).
    + discriminate.
    + by_evaluation.
    + exists r. split; [exact Hrun|]. apply Hindex; reflexivity.
  - destruct (fetch_falls_back_to_the_index_page (page_request "/app.js")
                two_pages empty_site) as (r & Hrun & _ & Hkeep & _).
    + discriminate.
    + by_evaluation.
    + exists r. split; [exact Hrun|]. apply Hkeep; reflexivity.
Defined.
